(** * Vortex: dialog view, extension manager, Skyrim SE descriptor, ARCtool wrapper

    A shallow embedding of
    - [src/views/Dialog.tsx] (module [Dialog]),
    - [src/util/ExtensionManager.ts] (module [ExtensionManager]),
    - the Skyrim SE game extension (module [SkyrimSE]),
    - the ARCtool wrapper (module [ARCWrapper]),
    and the properties of these functions.

    Conventions.  A JavaScript string is a [string]; its characters are
    the code units below 256.  An optional field ([field?: T]) or a value
    that can be [undefined] is an [option].  An object used as a
    dictionary is a [gmap string _] of its own properties; assignments
    and lookups that involve [Object.prototype] go through
    [JS.set_property] and [JS.get_property].  A function that can throw
    returns an [option], a [result] or an [attempt]; a function with an
    effect returns the effect as data (the call issued, the new state). *)

From Stdlib Require Import ZArith Ascii DecimalString.
From stdpp Require Import gmap strings list fin_maps.

Open Scope string_scope.
Open Scope list_scope.

(** ** JavaScript string primitives used by the sources *)
Module JS.

(** [s.split(c)] for a one-character separator: never the empty list. *)
Fixpoint split (c : ascii) (s : string) : list string :=
  match s with
  | EmptyString => [EmptyString]
  | String a s' =>
      if Ascii.eqb a c then EmptyString :: split c s'
      else match split c s' with
           | [] => [String a EmptyString]
           | h :: t => String a h :: t
           end
  end.

(** [l.join(sep)] *)
Definition join (sep : string) (l : list string) : string := String.concat sep l.

(** White space of [String.prototype.trim] among the code units below 256:
    TAB, LF, VT, FF, CR, SP and NBSP. *)
Definition is_white (a : ascii) : bool :=
  let n := nat_of_ascii a in
  ((9 <=? n)%nat && (n <=? 13)%nat) || (n =? 32)%nat || (n =? 160)%nat.

Fixpoint trimStart (s : string) : string :=
  match s with
  | EmptyString => EmptyString
  | String a s' => if is_white a then trimStart s' else s
  end.

Fixpoint trimEnd (s : string) : string :=
  match s with
  | EmptyString => EmptyString
  | String a s' =>
      match trimEnd s' with
      | EmptyString => if is_white a then EmptyString else String a EmptyString
      | r => String a r
      end
  end.

(** [s.trim()] *)
Definition trim (s : string) : string := trimEnd (trimStart s).

(** [s.startsWith(p)] *)
Definition startsWith (s p : string) : bool := String.prefix p s.

(** The line feed character and the one-character string ['\n']. *)
Definition LF : ascii := ascii_of_nat 10.
Definition TAB : ascii := ascii_of_nat 9.
Definition nl : string := String LF EmptyString.

(** [String(n)] for an integer [n]. *)
Definition string_of_Z (z : Z) : string := NilZero.string_of_int (Z.to_int z).

(** [s] with every [c] replaced by [d] ([s.split(c).join(d)]). *)
Fixpoint replaceAll (c d : ascii) (s : string) : string :=
  match s with
  | EmptyString => EmptyString
  | String a s' => String (if Ascii.eqb a c then d else a) (replaceAll c d s')
  end.

(** [c] occurs in [s]. *)
Fixpoint contains (c : ascii) (s : string) : bool :=
  match s with
  | EmptyString => false
  | String a s' => Ascii.eqb a c || contains c s'
  end.

(** The one-character string made of a double quote. *)
Definition dquote : string := String (ascii_of_nat 34) EmptyString.

(** *** Plain objects used as dictionaries

    A [gmap string V] holds the own properties of an object created by
    [{}] or an object literal.  Its prototype is [Object.prototype],
    whose members every such object inherits. *)

(** The property names of [Object.prototype]. *)
Definition prototype_members : list string :=
  [ "constructor"; "__defineGetter__"; "__defineSetter__"; "hasOwnProperty";
    "__lookupGetter__"; "__lookupSetter__"; "isPrototypeOf";
    "propertyIsEnumerable"; "toString"; "valueOf"; "__proto__";
    "toLocaleString" ].

(** [o[k] = v] for a primitive value [v] (a string, a boolean,
    [undefined]): the own property [k] is written, except for
    [k = '__proto__'], where the assignment runs the setter inherited
    from [Object.prototype], which ignores a primitive: nothing is
    stored. *)
Definition set_property {V : Type} (k : string) (v : V) (o : gmap string V)
    : gmap string V :=
  if String.eqb k "__proto__" then o else <[k := v]> o.

(** [o[k]]: the own property, else the member of [Object.prototype] of
    that name (a function, or the prototype itself for [__proto__]),
    else [undefined]. *)
Inductive Property (V : Type) :=
  | own (v : V)
  | inherited
  | absent.
Arguments own {V} v.
Arguments inherited {V}.
Arguments absent {V}.

Definition get_property {V : Type} (k : string) (o : gmap string V) : Property V :=
  match o !! k with
  | Some v => own v
  | None => if bool_decide (k ∈ prototype_members) then inherited else absent
  end.

End JS.

(** ** The ARCtool wrapper *)
Module ARCWrapper.

(** [IARCOptions.game] *)
Inductive ARCGame := DD | REHD | RE5 | RE6 | REV | REV2 | DMC4 | DMC4SE | UMVC3.

Definition game_string (g : ARCGame) : string :=
  match g with
  | DD => "DD" | REHD => "REHD" | RE5 => "RE5" | RE6 => "RE6" | REV => "REV"
  | REV2 => "REV2" | DMC4 => "DMC4" | DMC4SE => "DMC4SE" | UMVC3 => "UMVC3"
  end.

Record IARCOptions := {
  compression : option bool;
  forceCompression : option bool;
  game : option ARCGame;
}.

(** [{}], what [list] and [extract] pass for a missing options value. *)
Definition no_options : IARCOptions :=
  {| compression := None; forceCompression := None; game := None |}.

(** An [IListEntry], built by [current = { path: value }] and
    [current[key] = value]: a dictionary from property names to strings. *)
Definition IListEntry : Type := gmap string string.

(** *** parseList *)

(** The two variables of [parseList] that the loop body updates. *)
Record parse_state := {
  res : list IListEntry;
  current : option IListEntry;
}.

(** The body of the [forEach] callback. *)
Definition parse_line (st : parse_state) (line : string) : parse_state :=
  match JS.split "=" (JS.trim line) with
  | [key; value] =>
      if String.eqb key "Path" then
        {| res := match current st with
                  | Some c => res st ++ [c]
                  | None => res st
                  end;
           current := Some {[ "path" := value ]} |}
      else
        match current st with
        | Some c => {| res := res st; current := Some (JS.set_property key value c) |}
        | None => st
        end
  | _ => st
  end.

Definition parse_lines (lines : list string) (st : parse_state) : parse_state :=
  fold_left parse_line lines st.

Definition parseList (input : string) : list IListEntry :=
  res (parse_lines (JS.split JS.LF input) {| res := []; current := None |}).

(** *** run *)

(** The call [spawn(file, args, { shell })]. *)
Record SpawnCall := {
  spawn_file : string;
  spawn_args : list string;
  spawn_shell : bool;
}.

(** The spawn issued by [run(command, parameters, options)]. *)
Definition run_spawn (command : string) (parameters : list string)
    (options : IARCOptions) : SpawnCall :=
  let args :=
    [ "-" +:+ command;
      match game options with Some g => game_string g | None => "-DD" end;
      "-pc" ] ++ parameters in
  {| spawn_file := "ARCtool.exe"; spawn_args := args; spawn_shell := true |}.

(** The command line that Node's [spawn] makes of a call with
    [shell: true]: the file and the arguments joined by spaces, none of
    them quoted or escaped. *)
Definition command_line (call : SpawnCall) : string :=
  JS.join " " (spawn_file call :: spawn_args call).

(** What a call of [spawn] starts.  With [shell: true] it is not [file]
    but the shell of the platform ([cmd.exe], [/bin/sh]), which is handed
    the command line and runs what it reads there. *)
Inductive Started :=
  | direct (file : string) (args : list string)
  | through_shell (command : string).

Definition started (call : SpawnCall) : Started :=
  if spawn_shell call then through_shell (command_line call)
  else direct (spawn_file call) (spawn_args call).

(** The pieces of a command line between the ampersands outside double
    quotes.  For a line without caret, backslash or single quote, both
    [cmd.exe] and [sh] run each piece as a command of its own. *)
Fixpoint shell_commands_from (quoted : bool) (s : string) : list string :=
  match s with
  | EmptyString => [EmptyString]
  | String a s' =>
      if Ascii.eqb a "&" && negb quoted then EmptyString :: shell_commands_from quoted s'
      else
        let quoted' := if Ascii.eqb a (ascii_of_nat 34) then negb quoted else quoted in
        match shell_commands_from quoted' s' with
        | [] => [String a EmptyString]
        | h :: t => String a h :: t
        end
  end.

Definition shell_commands (line : string) : list string :=
  shell_commands_from false line.

(** An [Error] object, by its message. *)
Record JsError := { message : string }.

(** What the child process emits on the channels [run] listens to.  The
    exit code of ['close'] is a number, or [null] after a signal. *)
Inductive ProcEvent :=
  | StdoutData (data : string)
  | StderrData (data : string)
  | ErrorEvent (err : JsError)
  | Close (code : option Z).

Inductive Promise :=
  | Pending
  | Resolved
  | Rejected (reason : JsError).

(** [resolve()] and [reject(e)] settle a pending promise and do nothing
    to a settled one. *)
Definition resolve (p : Promise) : Promise :=
  match p with Pending => Resolved | _ => p end.

Definition reject (e : JsError) (p : Promise) : Promise :=
  match p with Pending => Rejected e | _ => p end.

Record run_state := {
  errorLines : list string;
  promise : Promise;
}.

Definition run_init : run_state := {| errorLines := []; promise := Pending |}.

(** ['...status code ' + code] *)
Definition code_string (code : option Z) : string :=
  match code with Some z => JS.string_of_Z z | None => "null" end.

(** The four listeners of [run]. *)
Definition on_event (st : run_state) (ev : ProcEvent) : run_state :=
  match ev with
  | ErrorEvent err =>
      {| errorLines := errorLines st; promise := reject err (promise st) |}
  | Close code =>
      if negb (bool_decide (code = Some 0%Z)) then
        {| errorLines := errorLines st;
           promise := reject
             {| message := "ARCtool.exe failed with status code " +:+ code_string code |}
             (promise st) |}
      else if negb (bool_decide (errorLines st = [])) then
        {| errorLines := errorLines st;
           promise := reject {| message := JS.join JS.nl (errorLines st) |}
                             (promise st) |}
      else
        {| errorLines := errorLines st; promise := resolve (promise st) |}
  | StdoutData data =>
      {| errorLines :=
           errorLines st ++
           filter (fun line => JS.startsWith line "Error" = true) (JS.split JS.LF data);
         promise := promise st |}
  | StderrData data =>
      {| errorLines := errorLines st ++ JS.split JS.LF data;
         promise := promise st |}
  end.

(** The state of [run] after the process emitted [evs], in this order. *)
Definition run_events (evs : list ProcEvent) : run_state :=
  fold_left on_event evs run_init.


(** The error lines that the data events [evs] make [run] collect. *)
Definition lines_of (ev : ProcEvent) : list string :=
  match ev with
  | StdoutData data =>
      filter (fun line => JS.startsWith line "Error" = true) (JS.split JS.LF data)
  | StderrData data => JS.split JS.LF data
  | _ => []
  end.

Definition collected (evs : list ProcEvent) : list string :=
  concat (map lines_of evs).

Definition is_data (ev : ProcEvent) : bool :=
  match ev with StdoutData _ | StderrData _ => true | _ => false end.

(** A line of the form [Path=<value>], as [parseList] recognises it. *)
Definition is_path_line (line : string) : bool :=
  match JS.split "=" (JS.trim line) with
  | [key; _] => String.eqb key "Path"
  | _ => false
  end.

(** The entries that the text describes, one per [Path] line: those
    [parseList] has pushed, and the one it is still filling. *)
Definition entries_of (st : parse_state) : list IListEntry :=
  match current st with
  | Some c => res st ++ [c]
  | None => res st
  end.

Definition parseList_spec (input : string) : list IListEntry :=
  entries_of (parse_lines (JS.split JS.LF input) {| res := []; current := None |}).


(** *** list and extract *)

Definition quote (input : string) : string := JS.dquote +:+ input +:+ JS.dquote.

(** A promise of a value of type [A]. *)
Inductive PromiseOf (A : Type) :=
  | StillPending
  | Fulfilled (value : A)
  | Failed (reason : JsError).
Arguments StillPending {A}.
Arguments Fulfilled {A} value.
Arguments Failed {A} reason.

(** [p.then(f)] for a promise without value. *)
Definition then_ {A} (p : Promise) (f : PromiseOf A) : PromiseOf A :=
  match p with
  | Pending => StillPending
  | Resolved => f
  | Rejected e => Failed e
  end.

(** The calls on [fs-extra-promise] that [list] and [extract] make. *)
Inductive FsCall :=
  | readFileAsync (file : string)
  | unlinkAsync (file : string)
  | renameAsync (oldPath newPath : string).

(** What the world answers to [list] or [extract]: the events of the
    spawned process, the content of a file or the error of reading it,
    and the error, if any, of removing or renaming a file. *)
Record World := {
  process_events : list ProcEvent;
  read_answer : string -> JsError + string;
  unlink_answer : string -> option JsError;
  rename_answer : string -> string -> option JsError;
}.

(** [list(archivePath, options)], named [list_] beside the type of
    lists: the spawn, the file system calls in the order made, and the
    promise returned.  An element of the output is [entry.path], [None]
    when the entry has no such property. *)
Definition list_ (archivePath : string) (options : option IARCOptions) (w : World)
    : SpawnCall * list FsCall * PromiseOf (list (option string)) :=
  let outputFile := archivePath +:+ ".verbose.txt" in
  let call := run_spawn "l" [quote archivePath] (default no_options options) in
  match promise (run_events (process_events w)) with
  | Pending => (call, [], StillPending)
  | Rejected e => (call, [], Failed e)
  | Resolved =>
      match read_answer w outputFile with
      | inl e => (call, [readFileAsync outputFile], Failed e)
      | inr data =>
          let output := map (fun entry : IListEntry => entry !! "path") (parseList data) in
          match unlink_answer w outputFile with
          | Some e => (call, [readFileAsync outputFile; unlinkAsync outputFile], Failed e)
          | None =>
              (call, [readFileAsync outputFile; unlinkAsync outputFile], Fulfilled output)
          end
      end
  end.

(** The functions of Node's [path] module that [extract] uses. *)
Record PathModule := {
  path_join : string -> string -> string;
  path_dirname : string -> string;
  path_basename : string -> string -> string;
  path_extname : string -> string;
}.

(** [extract(archivePath, outputPath, options)] *)
Definition extract (path : PathModule) (archivePath outputPath : string)
    (options : option IARCOptions) (w : World)
    : SpawnCall * list FsCall * PromiseOf unit :=
  let baseName := path_basename path archivePath (path_extname path archivePath) in
  let tempPath := path_join path (path_dirname path archivePath) baseName in
  let call := run_spawn "x" [quote archivePath] (default no_options options) in
  match promise (run_events (process_events w)) with
  | Pending => (call, [], StillPending)
  | Rejected e => (call, [], Failed e)
  | Resolved =>
      match rename_answer w tempPath outputPath with
      | Some e => (call, [renameAsync tempPath outputPath], Failed e)
      | None => (call, [renameAsync tempPath outputPath], Fulfilled tt)
      end
  end.

(** *** Verbose listings, as text *)

(** An entry of a listing: its path and its attributes, in order. *)
Definition ListedEntry : Type := string * list (string * string).

Definition attr_line (kv : string * string) : string := kv.1 +:+ "=" +:+ kv.2.

Definition entry_lines (e : ListedEntry) : list string :=
  ("Path=" +:+ e.1) :: map attr_line e.2.

Definition listing_lines (es : list ListedEntry) : list string :=
  concat (map entry_lines es).

(** The text with one [Path] line per entry, each followed by the
    entry's [key=value] lines. *)
Definition listing (es : list ListedEntry) : string :=
  JS.join JS.nl (listing_lines es).

(** The object [parseList] builds for an entry: [{ path }], then one
    assignment [current[key] = value] per attribute, in order. *)
Definition entry_object (e : ListedEntry) : IListEntry :=
  fold_left (fun (m : IListEntry) kv => JS.set_property kv.1 kv.2 m) e.2
            {[ "path" := e.1 ]}.

(** A text that splits into exactly itself on [=] and on line feeds. *)
Definition plain (s : string) : bool :=
  negb (JS.contains "=" s) && negb (JS.contains JS.LF s).

(** An entry whose lines [parseList] reads back: no [=] or line feed in
    path, keys and values, no key [Path], and no white space where
    [trim] would cut. *)
Definition readable (e : ListedEntry) : bool :=
  plain e.1 && bool_decide (JS.trimEnd e.1 = e.1) &&
  forallb (fun kv : string * string =>
             plain kv.1 && plain kv.2 &&
             negb (String.eqb kv.1 "Path") &&
             bool_decide (JS.trimStart kv.1 = kv.1) &&
             bool_decide (JS.trimEnd kv.2 = kv.2)) e.2.

End ARCWrapper.

(** ** The dialog view ([src/views/Dialog.tsx]) *)
Module Dialog.

(** *** Dialog descriptions

    The declarations of [types/IDialog] are not among the sources; the
    records below have the fields that the view reads and writes, with
    the optionality that its [undefined] tests show. *)

Record ICheckbox := {
  cb_id : string;
  cb_text : string;
  cb_value : bool;
}.

(** [in_id] is optional because [changeInput] can build an entry without
    one (the spread of a missing array element). *)
Record IInput := {
  in_id : option string;
  in_type : option string;
  in_value : option string;
  in_label : option string;
  in_placeholder : option string;
}.

Record ILink := { link_label : string }.

Record IDialogOptions := {
  translated : option bool;
  wrap : option bool;
  hideMessage : option bool;
}.

(** An entry of [DisabledActions], the result of a dialog's condition. *)
Record IConditionResult := {
  cr_id : string;
  cr_actions : list string;
  cr_errorText : string;
}.

Definition DisabledActions : Type := list IConditionResult.

(** [content.parameters], the replacement table handed to the translation. *)
Definition Params : Type := gmap string string.

(** The fields of an [IDialogContent] other than [condition]. *)
Record ContentFields := {
  htmlFile : option string;
  htmlText : option string;
  text : option string;
  message : option string;
  bbcode : option string;
  checkboxes : option (list ICheckbox);
  choices : option (list ICheckbox);
  input : option (list IInput);
  links : option (list ILink);
  parameters : option Params;
  options : option IDialogOptions;
}.

(** An [IDialogContent].  Its [condition] receives the content it belongs
    to; here it receives the content's fields. *)
Record IDialogContent := {
  fields : ContentFields;
  condition : option (ContentFields -> DisabledActions);
}.

Record IDialog := {
  d_id : string;
  d_type : string;
  d_title : string;
  d_content : IDialogContent;
  d_actions : list string;
  d_defaultAction : option string;
}.

(** The options object [{ replace: parameters }] of a translation call. *)
Record TOptions := { replace : option Params }.

Definition TFunction : Type := string -> option TOptions -> string.

(** [IProps]: the translation function and the dialog queue of the store.
    [onDismiss] is the sink of the calls that [dismiss] returns. *)
Record IProps := {
  t : TFunction;
  dialogs : list IDialog;
}.

Record IComponentState := {
  currentDialogId : option string;
  dialogState : option IDialogContent;
  disabledActions : DisabledActions;
}.

(** The state set by the constructor. *)
Definition initial_state : IComponentState :=
  {| currentDialogId := None; dialogState := None; disabledActions := [] |}.

(** *** The element tree that [render] builds *)

Inductive Handler :=
  | h_nop | h_Action_dismiss | h_Action_focus | h_dismiss | h_changeInput
  | h_toggleCheckbox | h_toggleRadio | h_triggerLink | h_focusMe.

Inductive PropVal :=
  | PString (s : string)
  | PBool (b : bool)
  | PNat (n : nat)
  | PNull
  | PUndefined
  | PHandler (h : Handler)
  | PTranslate
  | PHtml (html : string).

#[warnings="-register-all"] Inductive Element :=
  | Elem (tag : string) (props : list (string * PropVal)) (children : list Element)
  | Text (s : string)
  | BBCodeNodes (source : string)
  | Null.

Definition PStringOpt (o : option string) : PropVal :=
  match o with Some s => PString s | None => PUndefined end.

(** JavaScript truthiness of an optional string, [x || d] and [`${x}`]. *)
Definition truthy (o : option string) : bool :=
  match o with Some s => negb (String.eqb s "") | None => false end.

Definition or_else (o : option string) (d : string) : string :=
  if truthy o then default d o else d.

Definition template (o : option string) : string := default "undefined" o.

(** *** render and its helpers *)

Definition iconForType (type : string) : Element :=
  if String.eqb type "info" then
    Elem "Icon" [("name", PString "dialog-info"); ("className", PString "icon-info")] []
  else if String.eqb type "error" then
    Elem "Icon" [("name", PString "dialog-error"); ("className", PString "icon-error")] []
  else if String.eqb type "question" then
    Elem "Icon" [("name", PString "dialog-question"); ("className", PString "icon-question")] []
  else Null.

Definition translateParts (message : string) (t : TFunction) (parameters : option Params)
    : string :=
  JS.join JS.nl
    (map (fun line =>
            JS.join " "
              (map (fun block => t block (Some {| replace := parameters |}))
                   (JS.split JS.TAB line)))
         (JS.split JS.LF message)).

Definition hasValidationError (state : IComponentState) (input : IInput) : bool :=
  existsb (fun res => bool_decide (Some (cr_id res) = in_id input)) (disabledActions state).

Definition getErrorText (state : IComponentState) (input : IInput) : option string :=
  let errors :=
    filter (fun res => Some (cr_id res) = in_id input) (disabledActions state) in
  if bool_decide (length errors = 0) then None
  else Some (fold_left
               (fun errorString error =>
                  if negb (String.eqb errorString "")
                  then cr_errorText error +:+ JS.nl
                  else cr_errorText error)
               errors "").

Definition childOpt (o : option string) : Element :=
  match o with Some s => Text s | None => Null end.

(** [renderInput(input, idx)]; [sds] is [this.state.dialogState], which
    [render] has found defined. *)
Definition renderInput (props : IProps) (state : IComponentState) (sds : IDialogContent)
    (input : IInput) (idx : nat) : Element :=
  let hasValidationError : option bool :=
    match condition sds with
    | Some _ => Some (hasValidationError state input)
    | None => None
    end in
  let getValidationStatus : PropVal :=
    match hasValidationError with
    | Some b => if b then PString "error" else PString "success"
    | None => PNull
    end in
  Elem "FormGroup"
    [("key", PStringOpt (in_id input)); ("validationState", getValidationStatus)]
    [ if truthy (in_label input)
      then Elem "ControlLabel" [] [Text (t props (default "" (in_label input)) None)]
      else Null;
      Elem "FormControl"
        [("id", PString ("dialoginput-" +:+ template (in_id input)));
         ("type", PString (or_else (in_type input) "text"));
         ("value", PString (or_else (in_value input) ""));
         ("label", PStringOpt (in_label input));
         ("placeholder", PStringOpt (in_placeholder input));
         ("onChange", PHandler h_changeInput);
         ("ref", if bool_decide (idx = 0) then PHandler h_focusMe else PUndefined)]
        [];
      if default false hasValidationError
      then Elem "label" [("className", PString "control-label")]
                [childOpt (getErrorText state input)]
      else Null ].

Definition renderLink (link : ILink) (idx : nat) : Element :=
  Elem "a"
    [("key", PNat idx); ("onClick", PHandler h_triggerLink); ("data-linkidx", PNat idx)]
    [Text (link_label link)].

Definition renderCheckbox (props : IProps) (checkbox : ICheckbox) : Element :=
  Elem "Checkbox"
    [("id", PString (cb_id checkbox)); ("key", PString (cb_id checkbox));
     ("checked", PBool (cb_value checkbox)); ("onChange", PHandler h_toggleCheckbox)]
    [Text (t props (cb_text checkbox) None)].

Definition renderRadiobutton (props : IProps) (checkbox : ICheckbox) : Element :=
  Elem "Radio"
    [("id", PString (cb_id checkbox)); ("key", PString (cb_id checkbox));
     ("name", PString "dialog-radio");
     ("checked", PBool (cb_value checkbox)); ("onChange", PHandler h_toggleRadio)]
    [Text (t props (cb_text checkbox) None)].

Definition option_flag (get : IDialogOptions -> option bool) (c : ContentFields) : bool :=
  match options c with
  | Some o => bool_decide (get o = Some true)
  | None => false
  end.

Definition renderContent (props : IProps) (state : IComponentState) (sds : IDialogContent)
    (content : IDialogContent) : Element :=
  let c := fields content in
  let t : TFunction :=
    if option_flag translated c then (fun input _ => input) else t props in
  let controls1 :=
    if truthy (text c)
    then [Elem "div" [("key", PString "dialog-content-text");
                      ("className", PString "dialog-content-text")]
            [Text (t (default "" (text c)) (Some {| replace := parameters c |}))]]
    else [] in
  let controls2 :=
    match message c with
    | Some message =>
        let wrap := if option_flag wrap c then "on" else "off" in
        let ctrl :=
          Elem "textarea"
            [("key", PString "dialog-content-message"); ("wrap", PString wrap);
             ("defaultValue", PString (translateParts message t (parameters c)));
             ("readOnly", PBool true)] [] in
        if option_flag hideMessage c
        then [Elem "Collapse"
                [("key", PString "dialog-content-message-wrapper");
                 ("showText", PString (t "Show Details" None));
                 ("hideText", PString (t "Hide Details" None))]
                [ctrl]]
        else [ctrl]
    | None => []
    end in
  let controls3 :=
    match bbcode c with
    | Some code =>
        [Elem "div" [("key", PString "dialog-content-bbcode");
                     ("className", PString "dialog-content-bbcode")]
           [BBCodeNodes code]]
    | None => []
    end in
  let controls4 :=
    match htmlFile c, htmlText c, checkboxes c, choices c, input c, links c with
    | Some file, _, _, _, _, _ =>
        [Elem "div" [("key", PString "dialog-content-html")]
           [Elem "Webview" [("src", PString ("file://" +:+ file))] []]]
    | None, Some html, _, _, _, _ =>
        [Elem "div" [("key", PString "dialog-content-html");
                     ("className", PString "dialog-content-html");
                     ("dangerouslySetInnerHTML", PHtml html)] []]
    | None, None, Some boxes, _, _, _ =>
        [Elem "div" [("key", PString "dialog-content-choices");
                     ("className", PString "dialog-content-choices")]
           [Elem "div" [] (map (renderCheckbox props) boxes)]]
    | None, None, None, Some radios, _, _ =>
        [Elem "div" [("key", PString "dialog-content-choices");
                     ("className", PString "dialog-content-choices")]
           (map (renderRadiobutton props) radios)]
    | None, None, None, None, Some inputs, _ =>
        [Elem "div" [("key", PString "dialog-form-content")]
           (imap (fun idx i => renderInput props state sds i idx) inputs)]
    | None, None, None, None, None, Some ls =>
        [Elem "div" [("key", PString "dialog-form-links")]
           (imap (fun idx l => renderLink l idx) ls)]
    | None, None, None, None, None, None => []
    end in
  Elem "div" [("className", PString "dialog-container")]
    (controls1 ++ controls2 ++ controls3 ++ controls4).

Definition renderAction (state : IComponentState) (action : string) (isDefault : bool)
    : Element :=
  let isDisabled :=
    existsb (fun res => existsb (fun act => String.eqb act action) (cr_actions res))
            (disabledActions state) in
  Elem "Action"
    [("t", PTranslate); ("key", PString action); ("action", PString action);
     ("isDefault", PBool isDefault); ("onDismiss", PHandler h_dismiss);
     ("isDisabled", PBool isDisabled)] [].

(** [Action.render], the button an [Action] element shows. *)
Definition Action_render (t : TFunction) (action : string) (isDefault isDisabled : bool)
    : Element :=
  Elem "Button"
    [("id", PString "close"); ("onClick", PHandler h_Action_dismiss);
     ("bsStyle", if isDefault then PString "primary" else PUndefined);
     ("ref", if isDefault then PHandler h_Action_focus else PUndefined);
     ("disabled", PBool isDisabled)]
    [Text (t action None)].

Definition render (props : IProps) (state : IComponentState) : Element :=
  let dialog := head (dialogs props) in
  match dialog, dialogState state with
  | Some dialog, Some dialogState =>
      let c := fields (d_content dialog) in
      let type :=
        if bool_decide (htmlFile c <> None) || bool_decide (htmlText c <> None)
        then "wide" else "regular" in
      Elem "Modal"
        [("className", PString ("common-dialog-" +:+ type)); ("show", PBool true);
         ("onHide", PHandler h_nop)]
        [ Elem "Modal.Header" []
            [Elem "Modal.Title" []
               [iconForType (d_type dialog); Text " "; Text (t props (d_title dialog) None)]];
          Elem "Modal.Body" [] [renderContent props state dialogState dialogState];
          Elem "Modal.Footer" []
            (map (fun action =>
                    renderAction state action
                      (bool_decide (Some action = d_defaultAction dialog)))
                 (d_actions dialog)) ]
  | _, _ => Null
  end.

(** *** State transitions *)

(** [validateContent(dialogState)]; [None] is [undefined].  The state's
    [disabledActions] is never [undefined]: the constructor sets it to
    [[]] and every update stores an array. *)
Definition validateContent (state : IComponentState) (dialogState : IDialogContent)
    : option DisabledActions :=
  match condition dialogState with
  | None => None
  | Some condition =>
      let res := condition (fields dialogState) in
      Some (if (0 <? length res)%nat then res else [])
  end.

(** [newState = {...newState, disabledActions: newMap}] when [newMap] is
    defined, applied to a state whose [dialogState] is [ds]. *)
Definition with_validation (state newState : IComponentState) (ds : IDialogContent)
    : IComponentState :=
  match validateContent state ds with
  | Some newMap =>
      {| currentDialogId := currentDialogId newState;
         dialogState := dialogState newState;
         disabledActions := newMap |}
  | None => newState
  end.

(** The calls on the Electron window made when a dialog comes up. *)
Inductive WindowCall := w_restore | w_setAlwaysOnTop (flag : bool) | w_show.

(** [componentWillReceiveProps(newProps)]; [isMinimized] is what
    [window.isMinimized()] answers. *)
Definition componentWillReceiveProps (newProps : IProps) (isMinimized : bool)
    (state : IComponentState) : IComponentState * list WindowCall :=
  match dialogs newProps with
  | d :: _ =>
      if bool_decide (Some (d_id d) <> currentDialogId state) then
        let newState :=
          {| currentDialogId := Some (d_id d);
             dialogState := Some (d_content d);
             disabledActions := disabledActions state |} in
        (with_validation state newState (d_content d),
         (if isMinimized then [w_restore] else []) ++
         [w_setAlwaysOnTop true; w_show; w_setAlwaysOnTop false])
      else (state, [])
  | [] => (state, [])
  end.

Definition componentWillMount (props : IProps) (state : IComponentState)
    : IComponentState :=
  match dialogs props with
  | d :: _ =>
      {| currentDialogId := Some (d_id d);
         dialogState := Some (d_content d);
         disabledActions := disabledActions state |}
  | [] => state
  end.

(** [update(state, { dialogState: { <field>: ... } })]: the content with
    new fields, and the state holding a new content. *)
Definition update_fields (ds : IDialogContent) (c : ContentFields) : IDialogContent :=
  {| fields := c; condition := condition ds |}.

Definition set_dialogState (state : IComponentState) (ds : IDialogContent)
    : IComponentState :=
  {| currentDialogId := currentDialogId state;
     dialogState := Some ds;
     disabledActions := disabledActions state |}.

Definition set_input (c : ContentFields) (l : list IInput) : ContentFields :=
  {| htmlFile := htmlFile c; htmlText := htmlText c; text := text c;
     message := message c; bbcode := bbcode c; checkboxes := checkboxes c;
     choices := choices c; input := Some l; links := links c;
     parameters := parameters c; options := options c |}.

Definition set_checkboxes (c : ContentFields) (l : list ICheckbox) : ContentFields :=
  {| htmlFile := htmlFile c; htmlText := htmlText c; text := text c;
     message := message c; bbcode := bbcode c; checkboxes := Some l;
     choices := choices c; input := input c; links := links c;
     parameters := parameters c; options := options c |}.

Definition set_choices (c : ContentFields) (l : list ICheckbox) : ContentFields :=
  {| htmlFile := htmlFile c; htmlText := htmlText c; text := text c;
     message := message c; bbcode := bbcode c; checkboxes := checkboxes c;
     choices := Some l; input := input c; links := links c;
     parameters := parameters c; options := options c |}.

(** [l.findIndex(p)]; [None] is [-1]. *)
Fixpoint findIndex {A} (p : A -> bool) (l : list A) : option nat :=
  match l with
  | [] => None
  | x :: l' => if p x then Some 0 else S <$> findIndex p l'
  end.

(** [l.splice(idx, 1, x)] for [idx] a found index or [-1]: [-1] counts
    from the end, so it replaces the last element, and inserts into an
    empty array. *)
Definition splice1 {A} (idx : option nat) (x : A) (l : list A) : list A :=
  match idx with
  | Some i => take i l ++ x :: drop (S i) l
  | None =>
      match l with
      | [] => [x]
      | _ => take (length l - 1) l ++ [x]
      end
  end.

(** [changeInput(evt)] with [evt.currentTarget.id = target_id] and
    [evt.currentTarget.value = value].  [None]: a TypeError is thrown
    ([dialogState] or its [input] is undefined). *)
Definition changeInput (target_id value : string) (state : IComponentState)
    : option IComponentState :=
  ds ← dialogState state;
  inputs ← input (fields ds);
  let id := JS.join "-" (drop 1 (JS.split "-" target_id)) in
  let idx := findIndex (fun form => bool_decide (in_id form = Some id)) inputs in
  let old :=
    match idx with
    | Some i => inputs !! i
    | None => None
    end in
  let newInput :=
    match old with
    | Some i =>
        {| in_id := in_id i; in_type := in_type i; in_value := Some value;
           in_label := in_label i; in_placeholder := in_placeholder i |}
    | None =>
        {| in_id := None; in_type := None; in_value := Some value;
           in_label := None; in_placeholder := None |}
    end in
  let newContent := update_fields ds (set_input (fields ds) (splice1 idx newInput inputs)) in
  let newState := set_dialogState state newContent in
  Some (with_validation state newState newContent).

(** [toggleCheckbox(evt)] with [evt.currentTarget.id = target_id].
    [None]: a TypeError is thrown ([dialogState] or its [checkboxes] is
    undefined, or no box has the id, so that [newCheckboxes[-1]] is
    undefined). *)
Definition toggleCheckbox (target_id : string) (state : IComponentState)
    : option IComponentState :=
  ds ← dialogState state;
  boxes ← checkboxes (fields ds);
  idx ← findIndex (fun box => String.eqb (cb_id box) target_id) boxes;
  box ← boxes !! idx;
  let newCheckboxes :=
    <[idx := {| cb_id := cb_id box; cb_text := cb_text box;
                cb_value := negb (cb_value box) |}]> boxes in
  let newContent := update_fields ds (set_checkboxes (fields ds) newCheckboxes) in
  let newState := set_dialogState state newContent in
  Some (with_validation state newState newContent).

(** [toggleRadio(evt)] with [evt.currentTarget.id = target_id].  [None]:
    a TypeError is thrown, as in [toggleCheckbox]. *)
Definition toggleRadio (target_id : string) (state : IComponentState)
    : option IComponentState :=
  ds ← dialogState state;
  radios ← choices (fields ds);
  let idx := findIndex (fun box => String.eqb (cb_id box) target_id) radios in
  let cleared :=
    map (fun choice =>
           {| cb_id := cb_id choice; cb_text := cb_text choice; cb_value := false |})
        radios in
  idx ← idx;
  choice ← cleared !! idx;
  let newChoices :=
    <[idx := {| cb_id := cb_id choice; cb_text := cb_text choice; cb_value := true |}]>
      cleared in
  let newContent := update_fields ds (set_choices (fields ds) newChoices) in
  let newState := set_dialogState state newContent in
  Some (with_validation state newState newContent).

(** *** dismiss *)

(** A value stored in the [data] object of [dismiss]. *)
Inductive DataValue :=
  | VUndefined
  | VBool (b : bool)
  | VString (s : string).

Definition input_value (i : IInput) : DataValue :=
  match in_value i with Some s => VString s | None => VUndefined end.

(** A call [onDismiss(id, action, input)]. *)
Record DismissCall := {
  dc_id : string;
  dc_action : string;
  dc_input : gmap string DataValue;
}.

(** [data[box.id] = box.value] for each box: an assignment of a
    primitive to a property of the plain object [data]. *)
Definition put_boxes (boxes : option (list ICheckbox)) (data : gmap string DataValue)
    : gmap string DataValue :=
  match boxes with
  | Some l =>
      fold_left (fun data box => JS.set_property (cb_id box) (VBool (cb_value box)) data)
                l data
  | None => data
  end.

Definition put_inputs (inputs : option (list IInput)) (data : gmap string DataValue)
    : gmap string DataValue :=
  match inputs with
  | Some l =>
      fold_left (fun data i => JS.set_property (template (in_id i)) (input_value i) data)
                l data
  | None => data
  end.

(** The [data] object that [dismiss] fills from the dialog state. *)
Definition dismiss_data (c : ContentFields) : gmap string DataValue :=
  put_inputs (input c) (put_boxes (choices c) (put_boxes (checkboxes c) ∅)).

(** [dismiss(action)]: the calls of [onDismiss] it makes.  [None]: a
    TypeError is thrown before any call ([dialogState] is undefined, or
    the queue is empty so that [dialogs[0]] is undefined). *)
Definition dismiss (props : IProps) (state : IComponentState) (action : string)
    : option (list DismissCall) :=
  ds ← dialogState state;
  let data := dismiss_data (fields ds) in
  d ← head (dialogs props);
  Some [ {| dc_id := d_id d; dc_action := action; dc_input := data |} ].

(** *** The events that change the state, and what they are checked against *)

(** The children of the part [tag] ([Modal.Body], [Modal.Footer], ...)
    of a rendered modal. *)
Definition modal_part (tag : string) (e : Element) : option (list Element) :=
  match e with
  | Elem top _ parts =>
      if String.eqb top "Modal" then
        head (omap (fun part =>
                      match part with
                      | Elem tg _ children =>
                          if String.eqb tg tag then Some children else None
                      | _ => None
                      end) parts)
      else None
  | _ => None
  end.

(** The assignments [data[id] = value] of [dismiss], in the order made. *)
Definition box_entry (box : ICheckbox) : string * DataValue :=
  (cb_id box, VBool (cb_value box)).

Definition input_entry (i : IInput) : string * DataValue :=
  (template (in_id i), input_value i).

Definition widget_values (c : ContentFields) : list (string * DataValue) :=
  map box_entry (default [] (checkboxes c)) ++
  map box_entry (default [] (choices c)) ++
  map input_entry (default [] (input c)).

(** A dialog switch, as [componentWillReceiveProps] sees it, and the
    three widget changes; the widget is given by the id of the DOM
    element the event comes from. *)
Inductive Event :=
  | Switch (newProps : IProps) (isMinimized : bool)
  | InputEdit (target_id value : string)
  | CheckboxToggle (target_id : string)
  | RadioSelect (target_id : string).

Definition handle (ev : Event) (state : IComponentState) : option IComponentState :=
  match ev with
  | Switch newProps isMinimized =>
      Some (fst (componentWillReceiveProps newProps isMinimized state))
  | InputEdit target_id value => changeInput target_id value state
  | CheckboxToggle target_id => toggleCheckbox target_id state
  | RadioSelect target_id => toggleRadio target_id state
  end.

(** The event can occur in the state: the queue has a new head, or the
    dialog state has the widget that the event comes from. *)
Definition occurs (ev : Event) (state : IComponentState) : bool :=
  match ev with
  | Switch newProps _ =>
      match dialogs newProps with
      | d :: _ => bool_decide (Some (d_id d) <> currentDialogId state)
      | [] => false
      end
  | InputEdit target_id _ =>
      match dialogState state with
      | Some ds =>
          existsb (fun i => String.eqb ("dialoginput-" +:+ template (in_id i)) target_id)
                  (default [] (input (fields ds)))
      | None => false
      end
  | CheckboxToggle target_id =>
      match dialogState state with
      | Some ds =>
          existsb (fun box => String.eqb (cb_id box) target_id)
                  (default [] (checkboxes (fields ds)))
      | None => false
      end
  | RadioSelect target_id =>
      match dialogState state with
      | Some ds =>
          existsb (fun box => String.eqb (cb_id box) target_id)
                  (default [] (choices (fields ds)))
      | None => false
      end
  end.

(** *** Sample dialogs *)

Definition sample_t : TFunction := fun input _ => input.

Definition no_fields : ContentFields :=
  {| htmlFile := None; htmlText := None; text := None; message := None;
     bbcode := None; checkboxes := None; choices := None; input := None;
     links := None; parameters := None; options := None |}.

(** A question with one checkbox, and no condition. *)
Definition sample_dialog : IDialog :=
  {| d_id := "dialog-1"; d_type := "question"; d_title := "Remove mod?";
     d_content :=
       {| fields :=
            set_checkboxes no_fields
              [ {| cb_id := "remember"; cb_text := "Remember my choice";
                   cb_value := false |} ];
          condition := None |};
     d_actions := ["Cancel"; "Remove"];
     d_defaultAction := Some "Remove" |}.

Definition sample_props : IProps :=
  {| t := sample_t; dialogs := [sample_dialog] |}.

(** A dialog in which a checkbox and an input share the id [a]. *)
Definition shared_id_content : IDialogContent :=
  {| fields :=
       set_input
         (set_checkboxes no_fields [ {| cb_id := "a"; cb_text := "A"; cb_value := true |} ])
         [ {| in_id := Some "a"; in_type := None; in_value := Some "x";
              in_label := None; in_placeholder := None |} ];
     condition := None |}.

Definition shared_id_dialog : IDialog :=
  {| d_id := "dialog-4"; d_type := "info"; d_title := "Options";
     d_content := shared_id_content;
     d_actions := ["Close"];
     d_defaultAction := None |}.

(** A dialog with a checkbox of id [__proto__]. *)
Definition proto_id_content : IDialogContent :=
  {| fields :=
       set_checkboxes no_fields
         [ {| cb_id := "__proto__"; cb_text := "Keep"; cb_value := true |} ];
     condition := None |}.

Definition proto_id_dialog : IDialog :=
  {| d_id := "dialog-5"; d_type := "info"; d_title := "Options";
     d_content := proto_id_content;
     d_actions := ["Close"];
     d_defaultAction := None |}.

(** A name prompt whose condition disables [Save] while the name is empty. *)
Definition name_condition (c : ContentFields) : DisabledActions :=
  match input c with
  | Some (i :: _) =>
      if truthy (in_value i) then []
      else [ {| cr_id := "name"; cr_actions := ["Save"];
                cr_errorText := "Name is required" |} ]
  | _ => []
  end.

Definition name_dialog : IDialog :=
  {| d_id := "dialog-2"; d_type := "info"; d_title := "Profile name";
     d_content :=
       {| fields :=
            set_input no_fields
              [ {| in_id := Some "name"; in_type := None; in_value := None;
                   in_label := Some "Name"; in_placeholder := None |} ];
          condition := Some name_condition |};
     d_actions := ["Cancel"; "Save"];
     d_defaultAction := Some "Save" |}.

(** A choice between three options. *)
Definition radio_choices : list ICheckbox :=
  [ {| cb_id := "merge"; cb_text := "Merge"; cb_value := true |};
    {| cb_id := "replace"; cb_text := "Replace"; cb_value := false |};
    {| cb_id := "rename"; cb_text := "Rename"; cb_value := false |} ].

Definition radio_content : IDialogContent :=
  {| fields := set_choices no_fields radio_choices; condition := None |}.

Definition radio_state : IComponentState :=
  {| currentDialogId := Some "dialog-3";
     dialogState := Some radio_content;
     disabledActions := [] |}.

(** A choice in which the first and the third option carry the same id. *)
Definition duplicate_choices : list ICheckbox :=
  [ {| cb_id := "a"; cb_text := "First"; cb_value := false |};
    {| cb_id := "b"; cb_text := "Second"; cb_value := true |};
    {| cb_id := "a"; cb_text := "Third"; cb_value := false |} ].

Definition duplicate_state : IComponentState :=
  {| currentDialogId := Some "dialog-6";
     dialogState :=
       Some {| fields := set_choices no_fields duplicate_choices; condition := None |};
     disabledActions := [] |}.

End Dialog.

(** ** The extension manager ([src/util/ExtensionManager.ts]) *)
Module ExtensionManager.

(** *** Loading extensions from disk *)

(** A normalised path, as the list of its segments.  [path.join(p, name)]
    for a one-segment [name] appends it; [path.basename] is the last
    segment. *)
Definition Path : Type := list string.

Definition join (p : Path) (name : string) : Path := p ++ [name].

Definition basename (p : Path) : string := default "" (last p).

Definition dirname (p : Path) : Path := take (length p - 1) p.

Inductive result (A : Type) :=
  | Ok (a : A)
  | Thrown (message : string).
Arguments Ok {A} a.
Arguments Thrown {A} message.

(** A value thrown by code that the manager calls (a module, a
    callback), as far as a [catch] handler that reads [err.message] can
    tell: [null], [undefined], or another value, given by its [message]
    property ([None] when it has none). *)
Inductive Exception :=
  | exc_value (message : option string)
  | exc_null
  | exc_undefined.

Definition nullish (e : Exception) : bool :=
  match e with exc_value _ => false | _ => true end.

(** [err.message]: a TypeError when [err] is [null] or [undefined]. *)
Definition message_of (e : Exception) : result (option string) :=
  match e with
  | exc_value message => Ok message
  | exc_null => Thrown "Cannot read property 'message' of null"
  | exc_undefined => Thrown "Cannot read property 'message' of undefined"
  end.

(** What a call of such code does: it returns, or it throws. *)
Inductive attempt (A : Type) :=
  | Returned (a : A)
  | Raised (e : Exception).
Arguments Returned {A} a.
Arguments Raised {A} e.

(** [l.filter(f)] and [l.map(f)] for a callback that can throw: the
    first throw ends the traversal. *)
Fixpoint filter_result {A} (f : A -> result bool) (l : list A) : result (list A) :=
  match l with
  | [] => Ok []
  | x :: rest =>
      match f x with
      | Thrown e => Thrown e
      | Ok keep =>
          match filter_result f rest with
          | Thrown e => Thrown e
          | Ok kept => Ok (if keep then x :: kept else kept)
          end
      end
  end.

Fixpoint map_result {A B} (f : A -> result B) (l : list A) : result (list B) :=
  match l with
  | [] => Ok []
  | x :: rest =>
      match f x with
      | Thrown e => Thrown e
      | Ok y =>
          match map_result f rest with
          | Thrown e => Thrown e
          | Ok ys => Ok (y :: ys)
          end
      end
  end.

(** What the loader asks of the file system.  [existsSync] never throws;
    the other calls throw an [Error], given by its message. *)
Record FS := {
  existsSync : Path -> bool;
  readdirSync : Path -> result (list string);
  (** [fs.statSync(p).isDirectory()] *)
  isDirectory : Path -> result bool;
  (** why [fs.mkdirSync(p)] fails although [p] is missing and its
      parent is a directory (no permission, a dangling link at [p],
      a read-only disk), if it does *)
  mkdir_denied : Path -> option string;
}.

(** [fs.mkdirSync(p)], which does not create parents: it throws when
    [p] exists, when the parent of [p] is missing or is no directory,
    and when the system denies it; otherwise [p] exists afterwards, is
    an empty directory, and is listed in its parent. *)
Definition mkdirSync (p : Path) (fs : FS) : result FS :=
  if existsSync fs p then Thrown "EEXIST: file already exists, mkdir"
  else
    match isDirectory fs (dirname p) with
    | Thrown _ => Thrown "ENOENT: no such file or directory, mkdir"
    | Ok false => Thrown "ENOTDIR: not a directory, mkdir"
    | Ok true =>
        match mkdir_denied fs p with
        | Some e => Thrown e
        | None =>
            Ok {| existsSync q := if bool_decide (q = p) then true else existsSync fs q;
                  readdirSync q :=
                    if bool_decide (q = p) then Ok []
                    else if bool_decide (q = dirname p) then
                      match readdirSync fs q with
                      | Ok names => Ok (names ++ [basename p])
                      | Thrown e => Thrown e
                      end
                    else readdirSync fs q;
                  isDirectory q := if bool_decide (q = p) then Ok true else isDirectory fs q;
                  mkdir_denied := mkdir_denied fs |}
        end
    end.

Section Loader.

(** The type of an extension's init function ([IExtensionInit]). *)
Context {IExtensionInit : Type}.

Record IRegisteredExtension := {
  name : string;
  (** [undefined] when the module has no default export *)
  initFunc : option IExtensionInit;
}.

(** What evaluating [require(indexPath).default] does: it throws, or it
    yields the default export of the module. *)
Definition Require : Type := Path -> attempt (option IExtensionInit).

Variable fs : FS.
Variable require : Require.

(** [loadDynamicExtension(extensionPath)]; [Returned None] is
    [undefined].  The [log] calls and [ratypes.clear()] do not bear on
    the result and are left out. *)
Definition loadDynamicExtension (extensionPath : Path)
    : attempt (option IRegisteredExtension) :=
  let indexPath := join extensionPath "index.js" in
  if existsSync fs indexPath then
    match require indexPath with
    | Returned default =>
        Returned (Some {| name := basename extensionPath; initFunc := default |})
    | Raised e => Raised e
    end
  else Returned None.

(** The callback of [map]:
    [try { return this.loadDynamicExtension(...) }
     catch (err) { log('warn', ..., { error: err.message }); return undefined }].
    The handler itself throws when [err] is [null] or [undefined]. *)
Definition try_load (extensionsPath : Path) (name : string)
    : result (option IRegisteredExtension) :=
  match loadDynamicExtension (join extensionsPath name) with
  | Returned reg => Ok reg
  | Raised e =>
      match message_of e with
      | Ok _ => Ok None
      | Thrown t => Thrown t
      end
  end.

(** [loadDynamicExtensions(extensionsPath)]: the error thrown, or the
    file system afterwards and the array returned, whose elements are
    registrations or, as far as the types go, [undefined].  The [stat]
    calls of the [filter] are all made before the first load, outside
    the [try]. *)
Definition loadDynamicExtensions (extensionsPath : Path)
    : result (FS * list (option IRegisteredExtension)) :=
  if negb (existsSync fs extensionsPath) then
    match mkdirSync extensionsPath fs with
    | Thrown e => Thrown e
    | Ok created => Ok (created, [])
    end
  else
    match readdirSync fs extensionsPath with
    | Thrown e => Thrown e
    | Ok names =>
        match filter_result (fun name => isDirectory fs (join extensionsPath name)) names with
        | Thrown e => Thrown e
        | Ok directories =>
            match map_result (try_load extensionsPath) directories with
            | Thrown e => Thrown e
            | Ok res => Ok (fs, filter (fun reg => reg <> None) res)
            end
        end
    end.

End Loader.

Arguments IRegisteredExtension : clear implicits.

(** *** The registry of state change callbacks *)

(** Values of the store, as far as [===] tells them apart: a number
    other than [NaN] is given by an integer ([+0] and [-0] are one
    value), an object by its address. *)
Inductive JsValue :=
  | JUndefined
  | JNull
  | JBool (b : bool)
  | JNum (n : Z)
  | JNaN
  | JStr (s : string)
  | JRef (address : nat).

#[export] Instance JsValue_eq_dec : EqDecision JsValue.
Proof. solve_decision. Defined.

(** [a === b]: the same value, except that [NaN] equals nothing, not
    even itself. *)
Definition strict_equal (a b : JsValue) : bool :=
  match a with
  | JNaN => false
  | _ => bool_decide (a = b)
  end.

(** An [IStateChangeCallback]: a name that identifies it in traces, and
    whether a call with given arguments throws (and what).  A callback
    does not reach back into the manager. *)
Record IStateChangeCallback := {
  cb_name : string;
  cb_throws : JsValue -> JsValue -> option Exception;
}.

(** A listener given to [mReduxWatcher.watch]: the watched path, the
    [key] and the [lastValue] of the closure. *)
Record Watcher := {
  w_path : list string;
  w_key : string;
  w_lastValue : JsValue;
}.

(** [mWatches] is a plain object ([{}]), here by its own properties. *)
Record Manager := {
  mWatches : gmap string (list IStateChangeCallback);
  watchers : list Watcher;
}.

Definition new_manager : Manager := {| mWatches := ∅; watchers := [] |}.

(** [mApi.onStateChange(watchPath, callback)], as [setStore] installs it
    (the one set by the constructor does nothing).  For a key that names
    a member of [Object.prototype], [this.mWatches[key]] is that member:
    it is not [undefined], so that no list and no watcher is made, and
    it has no [push], so that the call throws. *)
Definition onStateChange (watchPath : list string) (callback : IStateChangeCallback)
    (m : Manager) : result Manager :=
  let key := JS.join "." watchPath in
  match JS.get_property key (mWatches m) with
  | JS.absent =>
      Ok {| mWatches := <[key := [callback]]> (mWatches m);
            watchers := watchers m ++
              [{| w_path := watchPath; w_key := key; w_lastValue := JUndefined |}] |}
  | JS.own cbs =>
      Ok {| mWatches := <[key := cbs ++ [callback]]> (mWatches m);
            watchers := watchers m |}
  | JS.inherited => Thrown "this.mWatches[key].push is not a function"
  end.

(** A call [cb(prevValue, currentValue)]. *)
Record Invocation := {
  inv_callback : string;
  inv_prev : JsValue;
  inv_current : JsValue;
}.

(** What a call of a listener does: the calls of callbacks made, the
    [message] of each error logged from the [catch], and the error that
    ends the call, if any. *)
Record Notified := {
  n_calls : list Invocation;
  n_logged : list (option string);
  n_thrown : option string;
}.

Definition nothing_notified : Notified :=
  {| n_calls := []; n_logged := []; n_thrown := None |}.

(** The [for (let cb of this.mWatches[key])] loop.  The [catch] reads
    [err.message]: for a thrown [null] or [undefined] the handler throws
    in turn, which ends the loop. *)
Fixpoint call_all (cbs : list IStateChangeCallback) (prevValue currentValue : JsValue)
    : Notified :=
  match cbs with
  | [] => nothing_notified
  | cb :: rest =>
      let call :=
        {| inv_callback := cb_name cb; inv_prev := prevValue;
           inv_current := currentValue |} in
      let more := call_all rest prevValue currentValue in
      match cb_throws cb prevValue currentValue with
      | None =>
          {| n_calls := call :: n_calls more; n_logged := n_logged more;
             n_thrown := n_thrown more |}
      | Some e =>
          match message_of e with
          | Ok message =>
              {| n_calls := call :: n_calls more; n_logged := message :: n_logged more;
                 n_thrown := n_thrown more |}
          | Thrown t => {| n_calls := [call]; n_logged := []; n_thrown := Some t |}
          end
      end
  end.

(** The listener of watcher number [i], called by the store watcher with
    [prevValue] and [currentValue]. *)
Definition listener (i : nat) (prevValue currentValue : JsValue) (m : Manager)
    : Manager * Notified :=
  match watchers m !! i with
  | None => (m, nothing_notified)
  | Some w =>
      if strict_equal currentValue (w_lastValue w) then (m, nothing_notified)
      else
        ({| mWatches := mWatches m;
            watchers := <[i := {| w_path := w_path w; w_key := w_key w;
                                  w_lastValue := currentValue |}]> (watchers m) |},
         call_all (default [] (mWatches m !! w_key w)) prevValue currentValue)
  end.

(** *** What the claims compare the code with *)

Section LoaderSpec.

Context {IExtensionInit : Type}.

(** The registration that the entry [name] of the extensions directory
    stands for: one for a subdirectory that contains an [index.js] whose
    module loads without error, none otherwise. *)
Definition loaded_registration (fs : FS) (require : @Require IExtensionInit)
    (extensionsPath : Path) (name : string)
    : option (IRegisteredExtension IExtensionInit) :=
  let indexPath := join (join extensionsPath name) "index.js" in
  match isDirectory fs (join extensionsPath name) with
  | Ok true =>
      if existsSync fs indexPath then
        match require indexPath with
        | Returned default => Some {| name := name; initFunc := default |}
        | Raised _ => None
        end
      else None
  | _ => None
  end.

(** Every entry of the listing can be stat'ed. *)
Definition statable (fs : FS) (extensionsPath : Path) (names : list string) : bool :=
  forallb (fun name =>
             match isDirectory fs (join extensionsPath name) with
             | Ok _ => true
             | Thrown _ => false
             end) names.

(** No module of a listed subdirectory throws [null] or [undefined]. *)
Definition throws_no_nullish (fs : FS) (require : @Require IExtensionInit)
    (extensionsPath : Path) (names : list string) : bool :=
  forallb (fun name =>
             let indexPath := join (join extensionsPath name) "index.js" in
             match isDirectory fs (join extensionsPath name) with
             | Ok true =>
                 if existsSync fs indexPath then
                   match require indexPath with
                   | Raised e => negb (nullish e)
                   | Returned _ => true
                   end
                 else true
             | _ => true
             end) names.

End LoaderSpec.

(** What happens to a manager: an extension registers a callback, or the
    store watcher calls the listener of watcher number [i]. *)
Inductive Op :=
  | Register (watchPath : list string) (callback : IStateChangeCallback)
  | Fire (i : nat) (prevValue currentValue : JsValue).

(** A registration that throws leaves the manager as it was, and so does
    a listener call ended by an error, but for the value recorded. *)
Definition apply_op (m : Manager) (op : Op) : Manager :=
  match op with
  | Register watchPath callback =>
      match onStateChange watchPath callback m with
      | Ok m' => m'
      | Thrown _ => m
      end
  | Fire i prevValue currentValue => fst (listener i prevValue currentValue m)
  end.

Definition run_ops (ops : list Op) : Manager := fold_left apply_op ops new_manager.

(** The callbacks registered in [ops] for paths whose joined key is
    [key], in the order of registration. *)
Definition registered_for (key : string) (ops : list Op) : list IStateChangeCallback :=
  omap (fun op =>
          match op with
          | Register watchPath callback =>
              if bool_decide (JS.join "." watchPath = key) then Some callback else None
          | Fire _ _ _ => None
          end) ops.

Definition invocation (prevValue currentValue : JsValue) (cb : IStateChangeCallback)
    : Invocation :=
  {| inv_callback := cb_name cb; inv_prev := prevValue; inv_current := currentValue |}.

(** The callback throws [null] or [undefined] on these arguments. *)
Definition throws_nullish (prevValue currentValue : JsValue) (cb : IStateChangeCallback)
    : bool :=
  match cb_throws cb prevValue currentValue with
  | Some e => nullish e
  | None => false
  end.

(** The [message] logged for the callback, if it throws. *)
Definition logged_message (prevValue currentValue : JsValue) (cb : IStateChangeCallback)
    : option (option string) :=
  match cb_throws cb prevValue currentValue with
  | Some (exc_value message) => Some message
  | _ => None
  end.

(** *** All extensions: built in, bundled and installed *)

Section LoadExtensions.

Context {IExtensionInit : Type}.

(** The init functions that the file imports, by the name under which
    [loadExtensions] registers them. *)
Variable builtin : string -> IExtensionInit.

Definition builtin_names : list string :=
  [ "settings_interface"; "settings_update"; "about_dialog"; "welcome_screen";
    "mod_management"; "profile_management"; "nexus_integration";
    "download_management"; "gamemode_management"; "nuts_local";
    "symlink_activator"; "symlink_activator_elevate"; "hardlink_activator";
    "installer_fomod" ].

(** [loadExtensions()]; [bundledPath] is [__dirname/../bundledPlugins]
    and [extensionsPath] is [userData/plugins]. *)
Definition loadExtensions (fs : FS) (require : @Require IExtensionInit)
    (bundledPath extensionsPath : Path)
    : result (FS * list (option (IRegisteredExtension IExtensionInit))) :=
  let static :=
    map (fun n => Some {| name := n; initFunc := Some (builtin n) |}) builtin_names in
  match loadDynamicExtensions fs require bundledPath with
  | Thrown e => Thrown e
  | Ok (fs1, bundled) =>
      match loadDynamicExtensions fs1 require extensionsPath with
      | Thrown e => Thrown e
      | Ok (fs2, installed) => Ok (fs2, static ++ bundled ++ installed)
      end
  end.

End LoadExtensions.

(** *** Running the init functions *)

(** A function passed as an argument, by a name and by whether calling
    it throws. *)
Record Fn := {
  fn_name : string;
  fn_throws : option string;
}.

Inductive Arg :=
  | a_string (s : string)
  | a_path (p : list string)
  | a_function (f : Fn).

(** A call [context.funcName(args)]. *)
Record ContextCall := {
  funcName : string;
  args : list Arg;
}.

(** An init function, by what it does with the context it is given: the
    calls it makes on the functions of the context, in order, and the
    error it throws after them, if any.  It does not catch what a
    function of the context throws. *)
Record InitFunc := {
  calls : list ContextCall;
  throws : option string;
}.

Record Extension := {
  ext_name : string;
  ext_init : InitFunc;
}.

(** A function of the context: the error it throws on given arguments,
    if any. *)
Definition ContextFn : Type := list Arg -> option string.

Definition nothing : ContextFn := fun _ => None.

(** [emptyExtensionContext()], without its [api] object. *)
Definition emptyExtensionContext : gmap string ContextFn :=
  list_to_map
    [ ("registerMainPage", nothing); ("registerSettings", nothing);
      ("registerIcon", nothing); ("registerFooter", nothing);
      ("registerReducer", nothing); ("registerExtensionFunction", nothing);
      ("registerStyle", nothing); ("registerPersistor", nothing);
      ("registerSettingsHive", nothing); ("once", nothing) ].

(** The calls of an init function that reach a function of the context,
    and the error that ends them: a call of a function that the context
    does not have is a TypeError. *)
Fixpoint run_calls (context : gmap string ContextFn) (cs : list ContextCall)
    : list ContextCall * option string :=
  match cs with
  | [] => ([], None)
  | c :: rest =>
      match context !! funcName c with
      | None => ([], Some ("context." +:+ funcName c +:+ " is not a function"))
      | Some fn =>
          match fn (args c) with
          | Some e => ([c], Some e)
          | None =>
              let '(made, e) := run_calls context rest in (c :: made, e)
          end
      end
  end.

(** [ext.initFunc(context)] *)
Definition run_init (context : gmap string ContextFn) (init : InitFunc)
    : list ContextCall * option string :=
  let '(made, e) := run_calls context (calls init) in
  (made, match e with Some _ => e | None => throws init end).

(** [this.mExtensions.forEach((ext) => ext.initFunc(context))]: the first
    error ends the loop. *)
Fixpoint init_all (context : gmap string ContextFn) (exts : list Extension)
    : list ContextCall * option string :=
  match exts with
  | [] => ([], None)
  | ext :: rest =>
      match run_init context (ext_init ext) with
      | (made, Some e) => (made, Some e)
      | (made, None) =>
          let '(more, e) := init_all context rest in (made ++ more, e)
      end
  end.

(** The calls of [funcName] among the calls made. *)
Definition calls_of (name : string) (made : list ContextCall) : list (list Arg) :=
  args <$> filter (fun c => funcName c = name) made.

(** [apply(funcName, func)]: the argument lists [func] was called with,
    and the error thrown, if any. *)
Definition apply (name : string) (func : ContextFn) (exts : list Extension)
    : list (list Arg) * option string :=
  let context := <[name := func]> emptyExtensionContext in
  let '(made, e) := init_all context exts in
  (calls_of name made, e).


(** *** Samples *)

(** A plugins directory with a good extension, a directory without
    [index.js], an extension whose module throws, and a plain file. *)
Definition plugins : Path := ["userData"; "plugins"].

Definition sample_fs : FS :=
  {| existsSync p :=
       bool_decide (p ∈ [ ["userData"]; plugins;
                          plugins ++ ["good"]; plugins ++ ["good"; "index.js"];
                          plugins ++ ["empty"]; plugins ++ ["broken"];
                          plugins ++ ["broken"; "index.js"]; plugins ++ ["notes.txt"] ]);
     readdirSync p :=
       if bool_decide (p = ["userData"]) then Ok ["plugins"]
       else if bool_decide (p = plugins) then Ok ["good"; "empty"; "broken"; "notes.txt"]
       else if bool_decide (p = plugins ++ ["good"]) then Ok ["index.js"]
       else if bool_decide (p = plugins ++ ["empty"]) then Ok []
       else if bool_decide (p = plugins ++ ["broken"]) then Ok ["index.js"]
       else Thrown "ENOENT: no such file or directory, scandir";
     isDirectory p :=
       if bool_decide (p ∈ [ ["userData"]; plugins; plugins ++ ["good"];
                             plugins ++ ["empty"]; plugins ++ ["broken"] ])
       then Ok true
       else if bool_decide (p ∈ [ plugins ++ ["good"; "index.js"];
                                  plugins ++ ["broken"; "index.js"];
                                  plugins ++ ["notes.txt"] ])
       then Ok false
       else Thrown "ENOENT: no such file or directory, stat";
     mkdir_denied := fun _ => None |}.

Definition sample_require : @Require nat :=
  fun p =>
    if bool_decide (p = plugins ++ ["good"; "index.js"]) then Returned (Some 7)
    else Raised (exc_value (Some "Cannot find module")).

(** The sample directory with one more entry, a link whose target is
    gone: [existsSync] answers [false] for it and [statSync] throws. *)
Definition stale_link_fs : FS :=
  {| existsSync := existsSync sample_fs;
     readdirSync p :=
       if bool_decide (p = plugins)
       then Ok ["good"; "empty"; "broken"; "notes.txt"; "stale-link"]
       else readdirSync sample_fs p;
     isDirectory := isDirectory sample_fs;
     mkdir_denied := mkdir_denied sample_fs |}.

(** A disk on which the [userData] directory itself is missing. *)
Definition no_userData_fs : FS :=
  {| existsSync := fun _ => false;
     readdirSync := fun _ => Thrown "ENOENT: no such file or directory, scandir";
     isDirectory := fun p =>
       if bool_decide (p = []) then Ok true
       else Thrown "ENOENT: no such file or directory, stat";
     mkdir_denied := fun _ => None |}.

(** Modules as in the sample, but the one of [broken] throws [null]. *)
Definition null_require : @Require nat :=
  fun p =>
    if bool_decide (p = plugins ++ ["broken"; "index.js"]) then Raised exc_null
    else sample_require p.

(** Modules as in the sample, but the one of [good] has no default
    export. *)
Definition no_default_require : @Require nat :=
  fun p =>
    if bool_decide (p = plugins ++ ["good"; "index.js"]) then Returned None
    else sample_require p.

Definition quiet (n : string) : IStateChangeCallback :=
  {| cb_name := n; cb_throws := fun _ _ => None |}.

Definition failing (n : string) : IStateChangeCallback :=
  {| cb_name := n; cb_throws := fun _ _ => Some (exc_value (Some "handler failed")) |}.

(** A callback that throws [null]. *)
Definition failing_null (n : string) : IStateChangeCallback :=
  {| cb_name := n; cb_throws := fun _ _ => Some exc_null |}.

Definition sample_ops : list Op :=
  [ Register ["settings"; "gameMode"] (quiet "first");
    Register ["settings.gameMode"] (failing "second");
    Register ["settings"; "gameMode"] (quiet "third") ].

Definition null_ops : list Op :=
  [ Register ["settings"; "gameMode"] (quiet "first");
    Register ["settings"; "gameMode"] (failing_null "second");
    Register ["settings"; "gameMode"] (quiet "third") ].

End ExtensionManager.

(** ** The Skyrim SE game extension *)
Module SkyrimSE.

(** [ITool] is declared in [types/ITool], which is not among the
    sources; the record has the fields that the descriptors set.  A
    function without parameters takes [()]. *)
Record ITool := {
  id : string;
  name : string;
  logo : string;
  executable : unit -> string;
  parameters : option (list string);
  requiredFiles : list string;
}.

(** The outcome of the registry lookup behind [queryPath]. *)
Inductive PathPromise :=
  | PathResolved (value : string)
  | PathRejected (message : string).

(** [regKey.get(name, callback)] of [winreg]: an error message or the
    value of the item. *)
Definition RegistryGet : Type := string -> string -> string -> string + string.

(** [findGame]; the argument is [None] where [winreg] is not available,
    and the result is then [null]. *)
Definition findGame (Registry : option RegistryGet) : option PathPromise :=
  match Registry with
  | None => None
  | Some get =>
      Some match get "HKLM"
                     "\Software\Wow6432Node\Bethesda Softworks\Skyrim Special Edition"
                     "Installed Path" with
           | inl err => PathRejected err
           | inr value => PathResolved value
           end
  end.

(** [getIniPath]; the argument is [app.getPath('documents')], and the
    path joined is given by its segments. *)
Definition getIniPath (documents : list string) : list string :=
  documents ++ ["My Games"; "Skyrim Special Edition"; "Skyrim.ini"].

Definition tools : list ITool :=
  [ {| id := "SSEEdit"; name := "SSEEdit"; logo := "tes5edit.png";
       executable := fun _ => "sseedit.exe";
       parameters := None;
       requiredFiles := ["tes5edit.exe"] |};
    {| id := "WryeBash"; name := "WryeBash"; logo := "wrye.png";
       executable := fun _ => "wryebash.exe";
       parameters := None;
       requiredFiles := ["wryebash.exe"] |};
    {| id := "loot"; name := "LOOT"; logo := "loot.png";
       executable := fun _ => "loot.exe";
       parameters := Some ["--game=skyrimse"];
       requiredFiles := ["loot.exe"] |};
    {| id := "FNIS"; name := "FNIS"; logo := "fnis.png";
       executable := fun _ => "GenerateFNISForUsers.exe";
       parameters := None;
       requiredFiles := ["GenerateFNISForUsers.exe"] |} ].

(** [IGame]: an [ITool] with the game's own fields. *)
Record IGame := {
  tool : ITool;
  mergeMods : bool;
  queryPath : option RegistryGet -> option PathPromise;
  iniFilePath : list string -> list string;
  supportedTools : list ITool;
  queryModPath : unit -> string;
  pluginPath : option string;
}.

Definition game : IGame :=
  {| tool :=
       {| id := "skyrimse"; name := "Skyrim Special Edition"; logo := "logo.png";
          executable := fun _ => "SkyrimSE.exe";
          parameters := None;
          requiredFiles := ["SkyrimSE.exe"] |};
     mergeMods := true;
     queryPath := findGame;
     iniFilePath := getIniPath;
     supportedTools := tools;
     queryModPath := fun _ => "./data";
     pluginPath := None |}.

(** [path.isAbsolute] on POSIX and on Windows. *)
Definition isAbsolute_posix (p : string) : bool := JS.startsWith p "/".

Definition is_letter (a : ascii) : bool :=
  let n := nat_of_ascii a in
  ((65 <=? n)%nat && (n <=? 90)%nat) || ((97 <=? n)%nat && (n <=? 122)%nat).

Definition is_sep (a : ascii) : bool :=
  Ascii.eqb a "/" || Ascii.eqb a "\".

Definition isAbsolute_win32 (p : string) : bool :=
  match p with
  | String a (String b (String c _)) =>
      is_sep a || (is_letter a && Ascii.eqb b ":" && is_sep c)
  | String a _ => is_sep a
  | EmptyString => false
  end.

End SkyrimSE.

(** * Properties *)

(** ** String primitives *)
Module JSFacts.

Lemma split_cons_sep (c : ascii) (s : string) :
  JS.split c (String c s) = EmptyString :: JS.split c s.
Proof. simpl. by rewrite Ascii.eqb_refl. Qed.

Lemma split_not_nil (c : ascii) (s : string) : JS.split c s <> [].
Proof.
  destruct s as [|a s]; simpl; [discriminate|].
  destruct (Ascii.eqb a c); [discriminate|].
  destruct (JS.split c s); discriminate.
Qed.

(** Splitting a text that has a separator at a known place. *)
Lemma split_app_sep (c : ascii) (a b : string) :
  JS.split c (a +:+ String c b) = JS.split c a ++ JS.split c b.
Proof.
  induction a as [|x a IH]; simpl.
  - by rewrite Ascii.eqb_refl.
  - destruct (Ascii.eqb x c); simpl; [by rewrite IH|].
    rewrite IH. destruct (JS.split c a) as [|h t] eqn:E; [|done].
    by apply split_not_nil in E.
Qed.

Lemma split_plain (c : ascii) (s : string) :
  JS.contains c s = false -> JS.split c s = [s].
Proof.
  induction s as [|a s IH]; simpl; [done|].
  destruct (Ascii.eqb a c); simpl; [discriminate|].
  intros H. by rewrite IH.
Qed.

Lemma append_empty_r (s : string) : s +:+ "" = s.
Proof. induction s as [|a s IH]; [done|]. change (String a (s +:+ "") = String a s). by rewrite IH. Qed.

Lemma append_assoc (a b c : string) : (a +:+ b) +:+ c = a +:+ (b +:+ c).
Proof.
  induction a as [|x a IH]; [done|].
  change (String x ((a +:+ b) +:+ c) = String x (a +:+ (b +:+ c))). by rewrite IH.
Qed.

Lemma join_cons (sep x : string) (l : list string) :
  l <> [] -> JS.join sep (x :: l) = x +:+ sep +:+ JS.join sep l.
Proof. by destruct l. Qed.

(** [s.split(c).join(d)] replaces every [c] by [d]. *)
Lemma join_split_replace (c d : ascii) (s : string) :
  JS.join (String d EmptyString) (JS.split c s) = JS.replaceAll c d s.
Proof.
  induction s as [|a s IH]; simpl; [done|].
  destruct (Ascii.eqb a c).
  - rewrite join_cons by apply split_not_nil. simpl. by rewrite IH.
  - rewrite <- IH. destruct (JS.split c s) as [|h t] eqn:E.
    + by apply split_not_nil in E.
    + destruct t; [done|]. rewrite !join_cons by done. done.
Qed.

Lemma replaceAll_same (c : ascii) (s : string) : JS.replaceAll c c s = s.
Proof.
  induction s as [|a s IH]; simpl; [done|]. rewrite IH.
  destruct (Ascii.eqb a c) eqn:E; [|done]. apply Ascii.eqb_eq in E. by subst.
Qed.

(** [s.split(c).join(c)] is [s]. *)
Lemma join_split (c : ascii) (s : string) :
  JS.join (String c EmptyString) (JS.split c s) = s.
Proof. by rewrite join_split_replace, replaceAll_same. Qed.

(** Lines without the separator are read back from their join. *)
Lemma split_join (c : ascii) (lines : list string) :
  lines <> [] ->
  Forall (fun l => JS.contains c l = false) lines ->
  JS.split c (JS.join (String c EmptyString) lines) = lines.
Proof.
  intros Hne Hall. induction Hall as [|l lines Hl Hall IH]; [done|].
  destruct lines as [|l' lines'].
  - simpl. by apply split_plain.
  - rewrite join_cons by done.
    change (String c EmptyString +:+ ?x) with (String c x).
    rewrite split_app_sep, split_plain by done. by rewrite IH.
Qed.

Lemma contains_app (c : ascii) (a b : string) :
  JS.contains c (a +:+ b) = JS.contains c a || JS.contains c b.
Proof.
  induction a as [|x a IH]; simpl; [done|]. rewrite IH. by rewrite orb_assoc.
Qed.

Lemma trimStart_nonwhite (a : ascii) (s : string) :
  JS.is_white a = false -> JS.trimStart (String a s) = String a s.
Proof. intros H. simpl. by rewrite H. Qed.

Lemma trimEnd_nonempty (s : string) :
  JS.trimEnd s = s -> s <> EmptyString -> JS.trimEnd s <> EmptyString.
Proof. by intros ->. Qed.

Lemma trimEnd_app (a b : string) :
  JS.trimEnd b = b -> b <> EmptyString -> JS.trimEnd (a +:+ b) = a +:+ b.
Proof.
  intros Hb Hne. induction a as [|x a IH]; [done|].
  change (String x a +:+ b) with (String x (a +:+ b)).
  cbn [JS.trimEnd]. rewrite IH. destruct (a +:+ b) eqn:E; [|done].
  destruct a; [change (b = EmptyString) in E; congruence | discriminate E].
Qed.

Lemma trimEnd_snoc_nonwhite (a : string) (x : ascii) :
  JS.is_white x = false ->
  JS.trimEnd (a +:+ String x EmptyString) = a +:+ String x EmptyString.
Proof.
  intros H. apply trimEnd_app; [|done]. simpl. by rewrite H.
Qed.

End JSFacts.

(** ** ARCtool wrapper *)
Module ARCWrapperFacts.
Import ARCWrapper.

Lemma split_nonempty c s : JS.split c s <> [].
Proof.
  destruct s as [|a s]; simpl; [discriminate|].
  destruct (Ascii.eqb a c); [discriminate|].
  destruct (JS.split c s); discriminate.
Qed.

(** *** parseList *)

Lemma entries_of_parse_line st line :
  length (entries_of (parse_line st line)) =
  length (entries_of st) + (if is_path_line line then 1 else 0).
Proof.
  unfold parse_line, is_path_line.
  destruct (JS.split "=" (JS.trim line)) as [|key [|value [|? ?]]]; simpl; try lia.
  destruct (String.eqb key "Path"); unfold entries_of; simpl.
  - destruct (current st); rewrite !length_app; simpl; lia.
  - destruct (current st) eqn:E; simpl; rewrite ?E, ?length_app; simpl; lia.
Qed.

Lemma entries_of_parse_lines lines st :
  length (entries_of (parse_lines lines st)) =
  length (entries_of st) + length (filter (fun l => is_path_line l = true) lines).
Proof.
  revert st. induction lines as [|line lines IH]; intros st; simpl.
  - lia.
  - unfold parse_lines in *. simpl. rewrite IH, entries_of_parse_line.
    rewrite filter_cons. destruct (is_path_line line); case_decide; try done; simpl; lia.
Qed.

Lemma current_parse_line st line :
  is_Some (current (parse_line st line)) <->
  is_Some (current st) \/ is_path_line line = true.
Proof.
  unfold parse_line, is_path_line.
  destruct (JS.split "=" (JS.trim line)) as [|key [|value [|? ?]]]; simpl;
    try destruct (String.eqb key "Path"); simpl;
    destruct (current st) eqn:E; simpl; rewrite ?E;
    rewrite ?is_Some_alt; intuition (try discriminate; eauto).
Qed.

Lemma current_parse_lines lines st :
  is_Some (current (parse_lines lines st)) <->
  is_Some (current st) \/ Exists (fun l => is_path_line l = true) lines.
Proof.
  revert st. induction lines as [|line lines IH]; intros st; unfold parse_lines in *; simpl.
  - rewrite Exists_nil. tauto.
  - rewrite IH, current_parse_line, Exists_cons. tauto.
Qed.

(** What [parseList] returns, against the entries of the text: the last
    entry is missing as soon as the text has a [Path] line. *)
Lemma parseList_misses_last (input : string) :
  Exists (fun l => is_path_line l = true) (JS.split JS.LF input) ->
  exists last, parseList_spec input = parseList input ++ [last].
Proof.
  intros HE. unfold parseList_spec, parseList, entries_of.
  destruct (current_parse_lines (JS.split JS.LF input) {| res := []; current := None |})
    as [_ H].
  destruct H as [c Hc]; [by right|]. rewrite Hc. by exists c.
Qed.

Lemma parseList_length (input : string) :
  length (parseList input) =
  length (filter (fun l => is_path_line l = true) (JS.split JS.LF input)) - 1.
Proof.
  set (lines := JS.split JS.LF input).
  pose proof (entries_of_parse_lines lines {| res := []; current := None |}) as HL.
  pose proof (current_parse_lines lines {| res := []; current := None |}) as HC.
  unfold parseList. fold lines. unfold entries_of in HL. simpl in HL.
  destruct (current (parse_lines lines _)) as [c|].
  - rewrite length_app in HL. simpl in HL. lia.
  - assert (~ Exists (fun l => is_path_line l = true) lines) as HN.
    { intros HE. destruct HC as [_ HC]. destruct HC as [? ?]; [by right | done]. }
    destruct (filter (fun l => is_path_line l = true) lines) as [|l ?] eqn:HF; [done|].
    exfalso. apply HN. apply Exists_exists. exists l.
    assert (l ∈ filter (fun l => is_path_line l = true) lines) as Hin
      by (rewrite HF; left).
    apply list_elem_of_filter in Hin. tauto.
Qed.

(** C2, at a concrete listing.  A verbose listing with two [Path] lines
    yields one entry, the first with its attribute, and a listing with
    one [Path] line yields none: the entry under construction when the
    text ends is never pushed, where the claim has one entry per [Path]
    line. *)
Theorem parseList_drops_last_entry :
  let listing :=
    "Path=a.txt" +:+ JS.nl +:+ "realSize=10" +:+ JS.nl +:+
    "Path=b.txt" +:+ JS.nl +:+ "realSize=20" in
  length (filter (fun l => is_path_line l = true) (JS.split JS.LF listing)) = 2 /\
  parseList listing = [ <["realSize" := "10"]> {[ "path" := "a.txt" ]} ] /\
  parseList_spec listing =
    [ <["realSize" := "10"]> {[ "path" := "a.txt" ]};
      <["realSize" := "20"]> {[ "path" := "b.txt" ]} ] /\
  parseList "Path=a.txt" = [].
Proof. by vm_compute. Qed.

(** *** run *)

Lemma join_after (x : string) (l : list string) :
  JS.join " " (x :: l) = x +:+ fold_right (fun p rest => " " +:+ p +:+ rest) "" l.
Proof.
  revert x. induction l as [|y l IH]; intros x.
  - simpl. by rewrite JSFacts.append_empty_r.
  - rewrite JSFacts.join_cons by done. by rewrite IH.
Qed.

(** C9, as stated, fails: [run] passes [shell: true], so what is started
    is the shell, and the shell reads the parameters unescaped.  With
    the parameters [&] and [calc.exe] the command line has two commands,
    the second of which runs [calc.exe].  The same is reached through
    [list], which quotes the archive path without escaping it: for the
    path [a.arc" & calc.exe & "] the command line has three commands. *)
Lemma run_starts_other_program :
  (let call := run_spawn "l" ["&"; "calc.exe"] no_options in
   started call = through_shell "ARCtool.exe -l -DD -pc & calc.exe" /\
   started call <> direct "ARCtool.exe" (spawn_args call) /\
   shell_commands (command_line call) = [ "ARCtool.exe -l -DD -pc "; " calc.exe" ]) /\
  (let archivePath := "a.arc" +:+ JS.dquote +:+ " & calc.exe & " +:+ JS.dquote in
   let call := (list_ archivePath None
                  {| process_events := []; read_answer := fun _ => inr "";
                     unlink_answer := fun _ => None;
                     rename_answer := fun _ _ => None |}).1.1 in
   call = run_spawn "l" [quote archivePath] no_options /\
   started call =
     through_shell ("ARCtool.exe -l -DD -pc " +:+ JS.dquote +:+ "a.arc" +:+ JS.dquote +:+
                    " & calc.exe & " +:+ JS.dquote +:+ JS.dquote) /\
   shell_commands (command_line call) =
     [ "ARCtool.exe -l -DD -pc " +:+ JS.dquote +:+ "a.arc" +:+ JS.dquote +:+ " ";
       " calc.exe ";
       " " +:+ JS.dquote +:+ JS.dquote ]).
Proof. by vm_compute. Qed.

(** C9, amended.  Whatever the command, the parameters and the options,
    [run] calls [spawn] with the file [ARCtool.exe], with the arguments
    made of the command with a dash before it, the game selector (the
    game named by the options, [-DD] when they name none), [-pc] and
    then the parameters, and with the option [shell: true].  What is
    started is therefore the shell, on the command line made of
    [ARCtool.exe] and each argument after a space, the parameters as
    they were given. *)
Theorem run_spawn_call (command : string) (parameters : list string)
    (options : IARCOptions) :
  let selector :=
    match game options with
    | None => "-DD"
    | Some DD => "DD" | Some REHD => "REHD" | Some RE5 => "RE5"
    | Some RE6 => "RE6" | Some REV => "REV" | Some REV2 => "REV2"
    | Some DMC4 => "DMC4" | Some DMC4SE => "DMC4SE" | Some UMVC3 => "UMVC3"
    end in
  run_spawn command parameters options =
    {| spawn_file := "ARCtool.exe";
       spawn_args := String "-" command :: selector :: "-pc" :: parameters;
       spawn_shell := true |} /\
  started (run_spawn command parameters options) =
    through_shell
      ("ARCtool.exe -" +:+ command +:+ " " +:+ selector +:+ " -pc" +:+
       fold_right (fun p rest => " " +:+ p +:+ rest) "" parameters).
Proof.
  intros selector.
  assert (run_spawn command parameters options =
          {| spawn_file := "ARCtool.exe";
             spawn_args := String "-" command :: selector :: "-pc" :: parameters;
             spawn_shell := true |}) as Hcall.
  { unfold run_spawn, selector. by destruct (game options) as [[]|]. }
  split; [exact Hcall|].
  rewrite Hcall. unfold started, command_line. cbn [spawn_shell spawn_file spawn_args].
  f_equal. rewrite join_after. cbn [fold_right].
  change (String "-" command) with ("-" +:+ command).
  rewrite !JSFacts.append_assoc. reflexivity.
Qed.

Lemma on_data_events evs st :
  Forall (fun ev => is_data ev = true) evs ->
  fold_left on_event evs st =
  {| errorLines := errorLines st ++ collected evs; promise := promise st |}.
Proof.
  intros H. revert st. induction H as [|ev evs Hev _ IH]; intros st; simpl.
  - unfold collected. simpl. rewrite app_nil_r. by destruct st.
  - rewrite IH. unfold collected. simpl. rewrite app_assoc.
    destruct ev; try discriminate; reflexivity.
Qed.

Lemma settled_on_event st ev :
  promise st <> Pending -> promise (on_event st ev) = promise st.
Proof.
  intros H. destruct ev; simpl; try reflexivity.
  - destruct (promise st); done.
  - repeat case_match; simpl; destruct (promise st); done.
Qed.

Lemma settled_forever evs st :
  promise st <> Pending -> promise (fold_left on_event evs st) = promise st.
Proof.
  revert st. induction evs as [|ev evs IH]; intros st H; simpl; [done|].
  rewrite IH; rewrite settled_on_event; done.
Qed.

(** The lines collected are non-empty exactly when stderr data arrived
    or a line of a stdout chunk starts with [Error]. *)
Lemma collected_nonempty evs :
  collected evs <> [] <->
  Exists (fun ev =>
            match ev with
            | StderrData _ => True
            | StdoutData data =>
                Exists (fun line => JS.startsWith line "Error" = true)
                       (JS.split JS.LF data)
            | _ => False
            end) evs.
Proof.
  unfold collected. induction evs as [|ev evs IH]; simpl.
  - rewrite Exists_nil. tauto.
  - rewrite Exists_cons, <- IH.
    assert (lines_of ev <> [] <->
            match ev with
            | StderrData _ => True
            | StdoutData data =>
                Exists (fun line => JS.startsWith line "Error" = true)
                       (JS.split JS.LF data)
            | _ => False
            end) as <-.
    { destruct ev as [data|data| |]; simpl; try tauto.
      - split.
        + intros Hne.
          destruct (filter _ (JS.split JS.LF data)) as [|l ls] eqn:HF; [done|].
          apply Exists_exists. exists l.
          assert (l ∈ filter (fun line => JS.startsWith line "Error" = true)
                    (JS.split JS.LF data)) as Hin by (rewrite HF; left).
          apply list_elem_of_filter in Hin. tauto.
        + intros HE HF. apply Exists_exists in HE as (l & Hin & Hl).
          assert (l ∈ filter (fun line => JS.startsWith line "Error" = true)
                    (JS.split JS.LF data)) as Hin'
            by (apply list_elem_of_filter; split; done).
          rewrite HF in Hin'. by apply not_elem_of_nil in Hin'.
      - split; [done|]. intros _. apply split_nonempty. }
    destruct (lines_of ev), (concat (map lines_of evs)); simpl; intuition congruence.
Qed.

(** C3, as stated, fails when the process emits ['error'] before it
    closes: spawning the shell fails, ['error'] carries the spawn error
    and ['close'] a non-zero code; the promise is rejected with the spawn
    error, not with the error that names the status code. *)
Lemma run_error_event_first :
  let evs := [ErrorEvent {| message := "spawn cmd.exe ENOENT" |};
              Close (Some (-4058)%Z)] in
  promise (run_events evs) = Rejected {| message := "spawn cmd.exe ENOENT" |} /\
  promise (run_events evs) <>
    Rejected {| message := "ARCtool.exe failed with status code -4058" |} /\
  ~ (forall (before : list ProcEvent) (code : option Z),
       code <> Some 0%Z ->
       promise (run_events (before ++ [Close code])) =
       Rejected {| message := "ARCtool.exe failed with status code " +:+
                              code_string code |}).
Proof.
  repeat split; [by vm_compute|].
  intros H.
  specialize (H [ErrorEvent {| message := "spawn cmd.exe ENOENT" |}]
                (Some (-4058)%Z) ltac:(done)).
  by vm_compute in H.
Qed.

(** C3, amended.  Let the process emit only stdout and stderr data
    before it closes with [code].  Then the promise of [run] is resolved
    exactly when [code] is 0 and no error line was collected; it is
    rejected with the error naming the status code when [code] is not 0;
    and it is rejected with the collected lines joined by line feeds when
    [code] is 0 and a line was collected, which is the case exactly when
    stderr data arrived or a line of a stdout chunk starts with [Error].
    If instead the process emits ['error'] after the data, the promise is
    rejected with that error, whatever follows. *)
Theorem run_settles (evs : list ProcEvent) (code : option Z) :
  Forall (fun ev => is_data ev = true) evs ->
  let lines := collected evs in
  let closed := run_events (evs ++ [Close code]) in
  errorLines closed = lines /\
  (promise closed = Resolved <-> code = Some 0%Z /\ lines = []) /\
  (code <> Some 0%Z ->
   promise closed =
   Rejected {| message := "ARCtool.exe failed with status code " +:+ code_string code |}) /\
  (code = Some 0%Z -> lines <> [] ->
   promise closed = Rejected {| message := JS.join JS.nl lines |}) /\
  (lines <> [] <->
   Exists (fun ev =>
             match ev with
             | StderrData _ => True
             | StdoutData data =>
                 Exists (fun line => JS.startsWith line "Error" = true)
                        (JS.split JS.LF data)
             | _ => False
             end) evs) /\
  (forall err rest,
     promise (run_events (evs ++ ErrorEvent err :: rest)) = Rejected err).
Proof.
  intros Hdata lines closed.
  assert (run_events evs = {| errorLines := lines; promise := Pending |}) as Hrun.
  { unfold run_events. by rewrite on_data_events. }
  assert (closed = on_event {| errorLines := lines; promise := Pending |} (Close code))
    as Hclosed.
  { unfold closed, run_events. rewrite fold_left_app. simpl.
    unfold run_events in Hrun. by rewrite Hrun. }
  split; [|split; [|split; [|split; [|split]]]].
  - rewrite Hclosed. simpl. by repeat case_match.
  - rewrite Hclosed. simpl.
    repeat case_bool_decide; simpl; split; try done; intros []; done.
  - intros Hcode. rewrite Hclosed. simpl. by rewrite bool_decide_false.
  - intros Hcode Hlines. rewrite Hclosed. simpl.
    rewrite bool_decide_true by done. simpl. by rewrite bool_decide_false.
  - apply collected_nonempty.
  - intros err rest. unfold run_events in *. rewrite fold_left_app. simpl.
    rewrite Hrun. simpl. by rewrite settled_forever.
Qed.

Lemma run_settles_witness :
  let evs := [StdoutData ("extracting" +:+ JS.nl +:+ "Error: bad archive");
              StderrData "oops"] in
  Forall (fun ev => is_data ev = true) evs /\
  promise (run_events (evs ++ [Close (Some 0%Z)])) =
  Rejected {| message := "Error: bad archive" +:+ JS.nl +:+ "oops" |}.
Proof.
  intros evs.
  assert (Forall (fun ev => is_data ev = true) evs) as Hdata
    by (repeat constructor).
  split; [exact Hdata|].
  destruct (run_settles evs (Some 0%Z) Hdata) as (_ & _ & _ & Hrej & _).
  rewrite Hrej; [reflexivity | reflexivity | by vm_compute].
Defined.

(** *** More on parseList *)

Lemma parse_lines_app (l1 l2 : list string) (st : parse_state) :
  parse_lines (l1 ++ l2) st = parse_lines l2 (parse_lines l1 st).
Proof. unfold parse_lines. apply fold_left_app. Qed.

Lemma parse_line_path_inv (st : parse_state) (line : string) :
  Forall (fun e : IListEntry => is_Some (e !! "path")) (entries_of st) ->
  Forall (fun e : IListEntry => is_Some (e !! "path")) (entries_of (parse_line st line)).
Proof.
  unfold parse_line, entries_of, IListEntry in *.
  destruct (JS.split "=" (JS.trim line)) as [|key [|value [|? ?]]]; try done.
  destruct (String.eqb key "Path"); cbn [current res].
  - intros H. apply Forall_app. split; [done|].
    constructor; [|done]. rewrite lookup_singleton_eq. by eexists.
  - destruct (current st) as [c|] eqn:E; cbn [current res]; rewrite ?E; [|done].
    rewrite !Forall_app, !Forall_singleton. intros [H1 H2]. split; [done|].
    unfold JS.set_property. destruct (String.eqb key "__proto__"); [done|].
    destruct (decide (key = "path")) as [->|Hne].
    + rewrite lookup_insert_eq. by eexists.
    + by rewrite lookup_insert_ne.
Qed.

Lemma parse_lines_path_inv (lines : list string) (st : parse_state) :
  Forall (fun e : IListEntry => is_Some (e !! "path")) (entries_of st) ->
  Forall (fun e : IListEntry => is_Some (e !! "path")) (entries_of (parse_lines lines st)).
Proof.
  revert st. induction lines as [|l lines IH]; intros st H; [done|].
  apply IH. by apply parse_line_path_inv.
Qed.

Lemma res_entries_of (st : parse_state) : res st `prefix_of` entries_of st.
Proof.
  unfold entries_of. destruct (current st) as [c|]; [by exists [c]|].
  exists []. by rewrite app_nil_r.
Qed.

(** X1.  Every entry that [parseList] returns has a [path] property,
    whatever the text: [list] never yields an undefined path. *)
Theorem parseList_entries_have_path (input : string) :
  Forall (fun e : IListEntry => is_Some (e !! "path")) (parseList input).
Proof.
  unfold parseList.
  pose proof (parse_lines_path_inv (JS.split JS.LF input)
                {| res := []; current := None |} (Forall_nil_2 _)) as H.
  destruct (res_entries_of (parse_lines (JS.split JS.LF input)
                              {| res := []; current := None |})) as [k Hk].
  rewrite Hk in H. by apply Forall_app in H as [H _].
Qed.

Lemma parse_line_res_prefix (st : parse_state) (line : string) :
  res st `prefix_of` res (parse_line st line).
Proof.
  unfold parse_line.
  destruct (JS.split "=" (JS.trim line)) as [|key [|value [|? ?]]]; try done.
  destruct (String.eqb key "Path"); simpl.
  - destruct (current st) as [c|]; [by exists [c] | done].
  - by destruct (current st).
Qed.

Lemma parse_lines_res_prefix (lines : list string) (st : parse_state) :
  res st `prefix_of` res (parse_lines lines st).
Proof.
  revert st. induction lines as [|l lines IH]; intros st; [done|].
  etrans; [apply parse_line_res_prefix | apply IH].
Qed.

(** X2.  Reading more text only adds entries: the result for a text is
    an initial segment of the result for the text continued after a line
    feed. *)
Theorem parseList_continued (a b : string) :
  parseList a `prefix_of` parseList (a +:+ String JS.LF b).
Proof.
  unfold parseList. rewrite JSFacts.split_app_sep, parse_lines_app.
  apply parse_lines_res_prefix.
Qed.

(** *** Listings read back *)

Lemma trimStart_length (s : string) :
  String.length (JS.trimStart s) <= String.length s.
Proof.
  induction s as [|a s IH]; simpl; [done|].
  destruct (JS.is_white a); simpl; lia.
Qed.

Lemma trimStart_fixed (a : ascii) (s : string) :
  JS.trimStart (String a s) = String a s -> JS.is_white a = false.
Proof.
  simpl. destruct (JS.is_white a); [|done].
  intros H. pose proof (trimStart_length s) as Hl. rewrite H in Hl. simpl in Hl. lia.
Qed.

Lemma trim_key_value (k v : string) :
  JS.trimStart k = k -> JS.trimEnd v = v ->
  JS.trim (k +:+ String "=" v) = k +:+ String "=" v.
Proof.
  intros Hk Hv. unfold JS.trim.
  assert (JS.trimStart (k +:+ String "=" v) = k +:+ String "=" v) as ->.
  { destruct k as [|a k]; [done|].
    change (String a k +:+ String "=" v) with (String a (k +:+ String "=" v)).
    apply JSFacts.trimStart_nonwhite. by eapply trimStart_fixed. }
  apply JSFacts.trimEnd_app; [|done].
  destruct v as [|x v]; [done|].
  by apply (JSFacts.trimEnd_app (String "=" EmptyString) (String x v)).
Qed.

Lemma split_key_value (k v : string) :
  plain k = true -> plain v = true ->
  JS.split "=" (k +:+ String "=" v) = [k; v].
Proof.
  unfold plain. intros [Hk _]%andb_prop [Hv _]%andb_prop.
  apply negb_true_iff in Hk, Hv.
  by rewrite JSFacts.split_app_sep, !JSFacts.split_plain.
Qed.

Lemma parse_path_line (st : parse_state) (p : string) :
  plain p = true -> JS.trimEnd p = p ->
  parse_line st ("Path=" +:+ p) =
  {| res := entries_of st; current := Some {[ "path" := p ]} |}.
Proof.
  intros Hp Ht. unfold parse_line.
  change ("Path=" +:+ p) with ("Path" +:+ String "=" p).
  rewrite trim_key_value, split_key_value by done. reflexivity.
Qed.

Lemma parse_attr_line (st : parse_state) (c : IListEntry) (kv : string * string) :
  current st = Some c ->
  plain kv.1 = true -> plain kv.2 = true -> kv.1 <> "Path" ->
  JS.trimStart kv.1 = kv.1 -> JS.trimEnd kv.2 = kv.2 ->
  parse_line st (attr_line kv) =
  {| res := res st; current := Some (JS.set_property kv.1 kv.2 c) |}.
Proof.
  intros Hc Hk Hv Hne Htk Htv. unfold parse_line, attr_line.
  change (kv.1 +:+ "=" +:+ kv.2) with (kv.1 +:+ String "=" kv.2).
  rewrite trim_key_value, split_key_value by done.
  apply String.eqb_neq in Hne. by rewrite Hne, Hc.
Qed.

Lemma parse_attr_lines (attrs : list (string * string)) (st : parse_state)
    (c : IListEntry) :
  current st = Some c ->
  forallb (fun kv : string * string =>
             plain kv.1 && plain kv.2 && negb (String.eqb kv.1 "Path") &&
             bool_decide (JS.trimStart kv.1 = kv.1) &&
             bool_decide (JS.trimEnd kv.2 = kv.2)) attrs = true ->
  parse_lines (map attr_line attrs) st =
  {| res := res st;
     current :=
       Some (fold_left (fun (m : IListEntry) kv => JS.set_property kv.1 kv.2 m) attrs c) |}.
Proof.
  revert st c. induction attrs as [|kv attrs IH]; intros st c Hc Hall.
  - simpl. destruct st. simpl in Hc. by subst.
  - simpl in Hall. apply andb_prop in Hall as [Hkv Hall].
    apply andb_prop in Hkv
      as [[[[Hk Hv]%andb_prop Hne]%andb_prop Htk]%andb_prop Htv].
    apply negb_true_iff, String.eqb_neq in Hne.
    apply bool_decide_eq_true_1 in Htk, Htv.
    unfold parse_lines in *. simpl.
    rewrite (parse_attr_line st c kv) by done.
    by rewrite (IH _ (JS.set_property kv.1 kv.2 c)).
Qed.

Lemma parse_entry_lines (e : ListedEntry) (st : parse_state) :
  readable e = true ->
  parse_lines (entry_lines e) st =
  {| res := entries_of st; current := Some (entry_object e) |}.
Proof.
  unfold readable. intros [[Hp Ht]%andb_prop Hattrs]%andb_prop.
  apply bool_decide_eq_true_1 in Ht.
  unfold entry_lines, parse_lines. simpl. rewrite parse_path_line by done.
  fold (parse_lines (map attr_line e.2)
          {| res := entries_of st; current := Some {[ "path" := e.1 ]} |}).
  by rewrite (parse_attr_lines _ _ {[ "path" := e.1 ]}).
Qed.

Lemma parse_listing_lines (es : list ListedEntry) (st : parse_state) :
  forallb readable es = true ->
  entries_of (parse_lines (listing_lines es) st) = entries_of st ++ map entry_object es /\
  (es <> [] -> is_Some (current (parse_lines (listing_lines es) st))).
Proof.
  revert st. induction es as [|e es IH]; intros st Hall.
  - simpl. by rewrite app_nil_r.
  - simpl in Hall. apply andb_prop in Hall as [He Hall].
    change (listing_lines (e :: es)) with (entry_lines e ++ listing_lines es).
    rewrite parse_lines_app, parse_entry_lines by done.
    destruct (IH {| res := entries_of st; current := Some (entry_object e) |} Hall)
      as [IH1 IH2].
    split.
    + rewrite IH1.
      change (entries_of {| res := entries_of st; current := Some (entry_object e) |})
        with (entries_of st ++ [entry_object e]).
      by rewrite <- app_assoc.
    + intros _. destruct es as [|e' es']; [by eexists | by apply IH2].
Qed.

Lemma listing_lines_plain (es : list ListedEntry) :
  forallb readable es = true ->
  Forall (fun l => JS.contains JS.LF l = false) (listing_lines es).
Proof.
  intros Hall. unfold listing_lines. apply Forall_concat, Forall_fmap.
  apply Forall_forall. intros e He.
  assert (readable e = true) as Hr.
  { eapply forallb_forall in Hall; [done|]. by apply list_elem_of_In. }
  unfold readable in Hr. apply andb_prop in Hr as [[Hp _]%andb_prop Hattrs].
  unfold plain in Hp. apply andb_prop in Hp as [_ Hp]. apply negb_true_iff in Hp.
  unfold entry_lines. constructor.
  - cbv beta. rewrite JSFacts.contains_app, Hp. reflexivity.
  - apply Forall_fmap, Forall_forall. intros kv Hkv.
    eapply forallb_forall in Hattrs; [|by apply list_elem_of_In].
    apply andb_prop in Hattrs
      as [[[[Hk Hv]%andb_prop _]%andb_prop _]%andb_prop _].
    unfold plain in Hk, Hv.
    apply andb_prop in Hk as [_ Hk]. apply andb_prop in Hv as [_ Hv].
    apply negb_true_iff in Hk, Hv.
    unfold attr_line, compose. rewrite !JSFacts.contains_app, Hk, Hv. reflexivity.
Qed.

Lemma listing_split (es : list ListedEntry) :
  es <> [] -> forallb readable es = true ->
  JS.split JS.LF (listing es) = listing_lines es.
Proof.
  intros Hne Hall. unfold listing. apply JSFacts.split_join.
  - destruct es as [|e es]; [done|]. discriminate.
  - by apply listing_lines_plain.
Qed.

Lemma parse_listing (es : list ListedEntry) :
  forallb readable es = true ->
  parseList (listing es) = map entry_object (removelast es) /\
  parseList_spec (listing es) = map entry_object es.
Proof.
  intros Hall. destruct (decide (es = [])) as [->|Hne]; [done|].
  unfold parseList, parseList_spec. rewrite listing_split by done.
  destruct (parse_listing_lines es {| res := []; current := None |} Hall) as [He Hc].
  destruct (Hc Hne) as [c Hcur]. split; [|exact He].
  unfold entries_of in He. rewrite Hcur in He. simpl in He.
  destruct (exists_last Hne) as (es' & e & ->).
  rewrite removelast_last. rewrite map_app in He. simpl in He.
  by apply app_inj_tail in He as [-> _].
Qed.

(** X3.  A listing of readable entries is read back, except for its
    last entry: [parseList] returns the objects of all entries but the
    last one, in order, each with its path and with its attributes as
    assigned one after the other: a later value replaces an earlier one
    of the same key, and an attribute named [__proto__] leaves no
    property. *)
Theorem parseList_listing (es : list ListedEntry) :
  forallb readable es = true ->
  parseList (listing es) = map entry_object (removelast es).
Proof.
  intros Hall. destruct (decide (es = [])) as [->|Hne]; [done|].
  unfold parseList. rewrite listing_split by done.
  destruct (parse_listing_lines es {| res := []; current := None |} Hall) as [He Hc].
  destruct (Hc Hne) as [c Hcur].
  unfold entries_of in He. rewrite Hcur in He. simpl in He.
  destruct (exists_last Hne) as (es' & e & ->).
  rewrite removelast_last. rewrite map_app in He. simpl in He.
  by apply app_inj_tail in He as [-> _].
Qed.

Lemma parseList_listing_witness :
  let es := [ ("data\a.tex", [("realSize", "10"); ("__proto__", "x");
                                ("flags", "2"); ("realSize", "12")]);
              ("data\my file.tex", [("realSize", "20")]) ] in
  forallb readable es = true /\
  parseList (listing es) =
  [ <["flags" := "2"]> (<["realSize" := "12"]> {[ "path" := "data\a.tex" ]}) ].
Proof.
  intros es.
  assert (forallb readable es = true) as Hr by (by vm_compute).
  split; [exact Hr|].
  rewrite (parseList_listing es Hr). reflexivity.
Defined.

(** *** list and extract *)

Lemma fold_insert_other (attrs : list (string * string)) (m : gmap string string)
    (k : string) :
  k ∉ attrs.*1 ->
  fold_left (fun (m : gmap string string) kv => JS.set_property kv.1 kv.2 m) attrs m !! k
  = m !! k.
Proof.
  revert m. induction attrs as [|kv attrs IH]; intros m Hnot; [done|].
  simpl. rewrite IH.
  - unfold JS.set_property. destruct (String.eqb kv.1 "__proto__"); [done|].
    apply lookup_insert_ne. intros Heq. apply Hnot. simpl. rewrite Heq. left.
  - intros Hin. apply Hnot. by right.
Qed.

Lemma entry_object_path (e : ListedEntry) :
  "path" ∉ e.2.*1 -> entry_object e !! "path" = Some e.1.
Proof.
  intros Hnot. unfold entry_object, IListEntry.
  rewrite fold_insert_other by done. apply lookup_singleton_eq.
Qed.

(** The promise of [run] for a process that only wrote data and then
    closed. *)
Lemma run_closed (evs : list ProcEvent) (code : option Z) :
  Forall (fun ev => is_data ev = true) evs ->
  promise (run_events (evs ++ [Close code])) =
  if negb (bool_decide (code = Some 0%Z)) then
    Rejected {| message := "ARCtool.exe failed with status code " +:+ code_string code |}
  else if negb (bool_decide (collected evs = [])) then
    Rejected {| message := JS.join JS.nl (collected evs) |}
  else Resolved.
Proof.
  intros Hdata. unfold run_events. rewrite fold_left_app, (on_data_events evs) by done.
  simpl. destruct (bool_decide (code = Some 0%Z)); simpl; [|done].
  by destruct (bool_decide (collected evs = [])).
Qed.

(** X4.  When ARCtool exits with code 0 without an error line and the
    verbose file holds a listing of readable entries, none with an
    attribute named [path], [list] asks for [-l] on the quoted archive
    path, reads the file [<archive>.verbose.txt], removes it, and
    resolves to the paths of all entries but the last. *)
Theorem list_reads_listing (archivePath : string) (options : option IARCOptions)
    (w : World) (evs : list ProcEvent) (es : list ListedEntry) :
  process_events w = evs ++ [Close (Some 0%Z)] ->
  Forall (fun ev => is_data ev = true) evs ->
  collected evs = [] ->
  read_answer w (archivePath +:+ ".verbose.txt") = inr (listing es) ->
  unlink_answer w (archivePath +:+ ".verbose.txt") = None ->
  forallb readable es = true ->
  Forall (fun e : ListedEntry => "path" ∉ e.2.*1) es ->
  list_ archivePath options w =
  ( {| spawn_file := "ARCtool.exe";
       spawn_args := [ "-l";
                       match options with
                       | Some {| game := Some g |} => game_string g
                       | _ => "-DD"
                       end;
                       "-pc";
                       JS.dquote +:+ archivePath +:+ JS.dquote ];
       spawn_shell := true |},
    [ readFileAsync (archivePath +:+ ".verbose.txt");
      unlinkAsync (archivePath +:+ ".verbose.txt") ],
    Fulfilled (map (fun e : ListedEntry => Some e.1) (removelast es)) ).
Proof.
  intros Hev Hdata Hcol Hread Hunlink Hr Hpath.
  unfold list_. rewrite Hev, run_closed, Hcol by done. simpl.
  rewrite Hread, Hunlink.
  destruct (parse_listing es Hr) as [-> _].
  f_equal; [f_equal|].
  - unfold run_spawn. f_equal. destruct options as [[? ? [g|]]|]; reflexivity.
  - f_equal. rewrite map_map. apply map_ext_in. intros e He.
    apply entry_object_path.
    apply list_elem_of_In in He.
    assert (e ∈ es) as Hin.
    { revert He. clear. induction es as [|x es IH] using rev_ind.
      - intros H. by apply not_elem_of_nil in H.
      - rewrite removelast_last. intros H. apply elem_of_app. by left. }
    by apply (proj1 (list.Forall_forall _ es) Hpath).
Qed.

Lemma list_reads_listing_witness :
  let es := [ ("data\a.tex", [("realSize", "10")]); ("data\b.tex", []);
              ("data\c.tex", [("flags", "1")]) ] in
  let w := {| process_events := [StdoutData "Listing..."; Close (Some 0%Z)];
              read_answer := fun _ => inr (listing es);
              unlink_answer := fun _ => None;
              rename_answer := fun _ _ => None |} in
  (list_ "game.arc" None w).2 = Fulfilled [Some "data\a.tex"; Some "data\b.tex"].
Proof.
  intros es w.
  rewrite (list_reads_listing "game.arc" None w [StdoutData "Listing..."] es).
  - reflexivity.
  - reflexivity.
  - by repeat constructor.
  - reflexivity.
  - reflexivity.
  - reflexivity.
  - by vm_compute.
  - unfold es.
    repeat (apply Forall_cons_2; [apply (bool_decide_unpack _); by vm_compute|]).
    apply Forall_nil_2.
Defined.

(** X5.  When ARCtool fails, by a non-zero exit code or by an error
    line, [list] and [extract] do not touch the file system: no file is
    read, removed or renamed, and both promises are rejected with the
    error of the run. *)
Theorem failed_run_touches_no_file (path : PathModule)
    (archivePath outputPath : string) (options : option IARCOptions) (w : World)
    (evs : list ProcEvent) (code : option Z) :
  process_events w = evs ++ [Close code] ->
  Forall (fun ev => is_data ev = true) evs ->
  code <> Some 0%Z \/ collected evs <> [] ->
  exists e,
    promise (run_events (process_events w)) = Rejected e /\
    (list_ archivePath options w).1.2 = [] /\
    (list_ archivePath options w).2 = Failed e /\
    (extract path archivePath outputPath options w).1.2 = [] /\
    (extract path archivePath outputPath options w).2 = Failed e.
Proof.
  intros Hev Hdata Hfail.
  assert (exists e, promise (run_events (process_events w)) = Rejected e) as [e He].
  { rewrite Hev, run_closed by done.
    case_bool_decide; simpl; [|by eexists].
    case_bool_decide; simpl; [|by eexists].
    by destruct Hfail. }
  exists e. unfold list_, extract. by rewrite He.
Qed.

Lemma failed_run_touches_no_file_witness :
  let w := {| process_events := [StdoutData "Error: not an archive"; Close (Some 0%Z)];
              read_answer := fun _ => inr "";
              unlink_answer := fun _ => None;
              rename_answer := fun _ _ => None |} in
  (list_ "game.arc" None w).1.2 = [] /\
  (list_ "game.arc" None w).2 = Failed {| message := "Error: not an archive" |}.
Proof.
  intros w.
  destruct (failed_run_touches_no_file
              {| path_join := fun a b => a +:+ "/" +:+ b; path_dirname := fun a => a;
                 path_basename := fun a _ => a; path_extname := fun _ => "" |}
              "game.arc" "out" None w [StdoutData "Error: not an archive"] (Some 0%Z))
    as (e & He & Hl1 & Hl2 & _).
  - reflexivity.
  - by repeat constructor.
  - right. by vm_compute.
  - split; [exact Hl1|]. rewrite Hl2. f_equal.
    assert (Rejected e = Rejected {| message := "Error: not an archive" |}) as Heq
      by (rewrite <- He; reflexivity).
    by injection Heq.
Defined.

Lemma on_event_stdout_join (st : run_state) (a b : string) :
  on_event (on_event st (StdoutData a)) (StdoutData b) =
  on_event st (StdoutData (a +:+ String JS.LF b)).
Proof.
  simpl. rewrite JSFacts.split_app_sep, filter_app. by rewrite app_assoc.
Qed.

Lemma on_event_stderr_join (st : run_state) (a b : string) :
  on_event (on_event st (StderrData a)) (StderrData b) =
  on_event st (StderrData (a +:+ String JS.LF b)).
Proof. simpl. rewrite JSFacts.split_app_sep. by rewrite app_assoc. Qed.

(** X6.  How the output is cut into chunks does not matter as long as
    the cuts fall on line feeds: two chunks in a row leave [run] in the
    same state as the one chunk that joins them with a line feed, on
    stdout and on stderr, whatever comes before and after. *)
Theorem chunks_cut_at_line_feeds (before after : list ProcEvent) (a b : string) :
  run_events (before ++ StdoutData a :: StdoutData b :: after) =
  run_events (before ++ StdoutData (a +:+ String JS.LF b) :: after) /\
  run_events (before ++ StderrData a :: StderrData b :: after) =
  run_events (before ++ StderrData (a +:+ String JS.LF b) :: after).
Proof.
  unfold run_events. rewrite !fold_left_app. cbn [fold_left].
  by rewrite on_event_stdout_join, on_event_stderr_join.
Qed.

End ARCWrapperFacts.

(** ** Dialog view *)
Module DialogFacts.
Import Dialog.

(** *** findIndex *)

Lemma findIndex_Some {A} (p : A -> bool) (l : list A) (i : nat) :
  findIndex p l = Some i ->
  exists x, l !! i = Some x /\ p x = true /\
            forall j y, j < i -> l !! j = Some y -> p y = false.
Proof.
  revert i. induction l as [|a l IH]; intros i; simpl; [discriminate|].
  destruct (p a) eqn:Hp.
  - intros [= <-]. exists a. repeat split; [done|]. intros j y Hj. lia.
  - destruct (findIndex p l) as [k|]; [|discriminate].
    simpl. intros [= <-]. destruct (IH k eq_refl) as (x & Hx & Hpx & Hmin).
    exists x. repeat split; [done..|].
    intros [|j] y Hj; simpl; [by intros [= <-]|]. apply Hmin. lia.
Qed.

Lemma findIndex_existsb {A} (p : A -> bool) (l : list A) :
  existsb p l = true -> is_Some (findIndex p l).
Proof.
  induction l as [|a l IH]; simpl; [discriminate|].
  destruct (p a); simpl; [by eexists|].
  intros H. destruct (IH H) as [k ->]. by eexists.
Qed.

Lemma existsb_elem_of {A} (p : A -> bool) (l : list A) :
  existsb p l = true <-> exists x, x ∈ l /\ p x = true.
Proof.
  rewrite existsb_exists. split; intros (x & ? & ?); exists x;
    by rewrite ?list_elem_of_In in *.
Qed.

(** *** More on findIndex *)

Lemma findIndex_first {A} (p : A -> bool) (l : list A) (i : nat) (x : A) :
  l !! i = Some x -> p x = true ->
  (forall j y, j < i -> l !! j = Some y -> p y = false) ->
  findIndex p l = Some i.
Proof.
  revert i. induction l as [|a l IH]; intros i Hx Hp Hmin; [done|].
  destruct i as [|i]; simpl in *.
  - injection Hx as ->. by rewrite Hp.
  - rewrite (Hmin 0 a) by (done || lia).
    rewrite (IH i); [done..|]. intros j y Hj Hy. apply (Hmin (S j)); [lia|done].
Qed.

Lemma findIndex_None {A} (p : A -> bool) (l : list A) :
  findIndex p l = None <-> forall x, x ∈ l -> p x = false.
Proof.
  induction l as [|a l IH]; simpl.
  - split; [|done]. intros _ x Hx. by apply not_elem_of_nil in Hx.
  - destruct (p a) eqn:Hp.
    + split; [done|]. intros H. rewrite (H a) in Hp by left. discriminate.
    + destruct (findIndex p l) as [k|] eqn:Hk; simpl.
      * split; [done|]. intros H.
        assert (Some k = None) as Hn; [|discriminate Hn].
        apply IH. intros x Hx. apply H. by right.
      * split; [|done]. intros _ x Hx. apply elem_of_cons in Hx as [->|Hx]; [done|].
        by apply IH.
Qed.

(** The id that [changeInput] reads off the DOM id which [renderInput]
    gives to the control of an input. *)
Lemma input_id_read_back (id : string) :
  JS.join "-" (drop 1 (JS.split "-" ("dialoginput-" +:+ id))) = id.
Proof.
  change ("dialoginput-" +:+ id) with ("dialoginput" +:+ String "-" id).
  rewrite JSFacts.split_app_sep. simpl drop.
  apply (JSFacts.join_split "-").
Qed.

Lemma splice1_found {A} (i : nat) (x : A) (l : list A) :
  i < length l -> splice1 (Some i) x l = <[i := x]> l.
Proof. intros H. unfold splice1. by rewrite insert_take_drop. Qed.


(** *** toggleRadio *)

Lemma filter_cleared (l : list ICheckbox) :
  filter (fun box => cb_value box = true)
    (map (fun choice =>
            {| cb_id := cb_id choice; cb_text := cb_text choice; cb_value := false |}) l)
  = [].
Proof.
  induction l as [|a l IH]; simpl; [done|].
  rewrite filter_cons. case_decide as H; [discriminate H | exact IH].
Qed.

Lemma filter_sublist_nil {A} (P : A -> Prop) `{forall x, Decision (P x)} (l k : list A) :
  filter P l = [] -> k ⊆ l -> filter P k = [].
Proof.
  intros Hl Hk. destruct (filter P k) as [|x ?] eqn:E; [done|].
  assert (x ∈ filter P k) as Hx by (rewrite E; left).
  apply list_elem_of_filter in Hx as [HP Hin].
  assert (x ∈ filter P l) as Hx' by (apply list_elem_of_filter; split; auto).
  rewrite Hl in Hx'. by apply not_elem_of_nil in Hx'.
Qed.

(** C7, as stated, fails when two choices carry the same id and the
    later one is clicked: the event names the clicked element by its id
    only, and [findIndex] stops at the first choice with this id.  With
    the ids [a], [b], [a], a click on the third choice selects the
    first; the clicked one stays unselected. *)
Lemma toggleRadio_duplicate_id :
  exists clicked state' ds',
    duplicate_choices !! 2 = Some clicked /\
    toggleRadio (cb_id clicked) duplicate_state = Some state' /\
    dialogState state' = Some ds' /\
    choices (fields ds') =
      Some [ {| cb_id := "a"; cb_text := "First"; cb_value := true |};
             {| cb_id := "b"; cb_text := "Second"; cb_value := false |};
             {| cb_id := "a"; cb_text := "Third"; cb_value := false |} ].
Proof. by eexists _, _, _. Qed.

(** C7, amended.  Let [clicked] be the choice at index [k] of the dialog
    state, so that a click on its element calls [toggleRadio] with its
    id.  Then [toggleRadio] succeeds, and in the new choices exactly one
    entry has value [true]: the entry at the first index [idx] whose
    choice carries the id of the clicked one; every other entry has
    value [false], and ids and texts are unchanged.  [idx] is [k], the
    clicked choice itself, when no choice before it carries its id, as
    when the ids are pairwise distinct. *)
Theorem toggleRadio_selects_first_with_id (state : IComponentState)
    (ds : IDialogContent) (radios : list ICheckbox) (k : nat) (clicked : ICheckbox) :
  dialogState state = Some ds ->
  choices (fields ds) = Some radios ->
  radios !! k = Some clicked ->
  exists state' ds' radios' idx,
    toggleRadio (cb_id clicked) state = Some state' /\
    dialogState state' = Some ds' /\
    choices (fields ds') = Some radios' /\
    length radios' = length radios /\
    idx <= k /\
    (exists first, radios !! idx = Some first /\ cb_id first = cb_id clicked) /\
    (forall j other, j < idx -> radios !! j = Some other -> cb_id other <> cb_id clicked) /\
    (forall j box', radios' !! j = Some box' ->
       exists box, radios !! j = Some box /\
                   cb_id box' = cb_id box /\ cb_text box' = cb_text box /\
                   (cb_value box' = true <-> j = idx)) /\
    length (filter (fun box => cb_value box = true) radios') = 1 /\
    ((forall j other, j < k -> radios !! j = Some other -> cb_id other <> cb_id clicked) ->
     idx = k) /\
    (NoDup (cb_id <$> radios) -> idx = k).
Proof.
  intros Hds Hch Hk.
  set (p := fun box : ICheckbox => String.eqb (cb_id box) (cb_id clicked)).
  set (clear := fun choice : ICheckbox =>
         {| cb_id := cb_id choice; cb_text := cb_text choice; cb_value := false |}).
  assert (is_Some (findIndex p radios)) as [idx Hidx].
  { apply findIndex_existsb, existsb_elem_of. exists clicked. split.
    - by eapply list_elem_of_lookup_2.
    - unfold p. by apply String.eqb_eq. }
  destruct (findIndex_Some _ _ _ Hidx) as (x & Hx & Hpx & Hmin).
  unfold p in Hpx. apply String.eqb_eq in Hpx.
  assert (forall j other, j < idx -> radios !! j = Some other ->
                          cb_id other <> cb_id clicked) as Hfirst.
  { intros j other Hj Hother. apply String.eqb_neq. by apply (Hmin j other). }
  assert (idx <= k) as Hle.
  { destruct (decide (idx <= k)) as [|Hgt]; [done|].
    exfalso. apply (Hfirst k clicked); [lia|done|done]. }
  assert ((forall j other, j < k -> radios !! j = Some other ->
                           cb_id other <> cb_id clicked) -> idx = k) as Hsame.
  { intros Hnone. destruct (decide (idx = k)) as [|Hne]; [done|].
    exfalso. apply (Hnone idx x); [lia|done|done]. }
  assert (map clear radios !! idx = Some (clear x)) as Hcl
    by (by rewrite list_lookup_fmap, Hx).
  set (sel := {| cb_id := cb_id (clear x); cb_text := cb_text (clear x); cb_value := true |}).
  set (radios' := <[idx := sel]> (map clear radios)).
  set (ds' := update_fields ds (set_choices (fields ds) radios')).
  exists (with_validation state (set_dialogState state ds') ds'), ds', radios', idx.
  assert (idx < length (map clear radios)) as Hlt by (by eapply lookup_lt_Some).
  split; [|split; [|split; [|split; [|split; [|split; [|split; [|split; [|split;
    [|split]]]]]]]]].
  - unfold toggleRadio. rewrite Hds. simpl. rewrite Hch. simpl.
    fold p. rewrite Hidx. simpl. fold clear. rewrite Hcl. reflexivity.
  - unfold with_validation. by destruct (validateContent _ _).
  - reflexivity.
  - unfold radios'. by rewrite length_insert, length_map.
  - exact Hle.
  - by exists x.
  - exact Hfirst.
  - intros j box' Hj. unfold radios' in Hj.
    destruct (decide (j = idx)) as [->|Hne].
    + rewrite list_lookup_insert_eq in Hj by done. injection Hj as <-.
      exists x. simpl. by repeat split.
    + rewrite list_lookup_insert_ne in Hj by done.
      rewrite list_lookup_fmap in Hj.
      destruct (radios !! j) as [y|]; [|discriminate].
      injection Hj as <-. exists y. simpl. repeat split; done.
  - unfold radios'. rewrite insert_take_drop by done.
    rewrite filter_app, filter_cons, decide_True by done.
    rewrite !(filter_sublist_nil _ (map clear radios)); [done|..];
      try apply filter_cleared.
    + apply subseteq_drop.
    + apply subseteq_take.
  - exact Hsame.
  - intros Hnd. eapply (NoDup_lookup (cb_id <$> radios)); [done| |].
    + by rewrite list_lookup_fmap, Hx.
    + rewrite list_lookup_fmap, Hk. simpl. by rewrite Hpx.
Qed.

(** *** Validation after a switch or a widget change *)

Lemma normalised_result (res : DisabledActions) :
  (if (0 <? length res)%nat then res else []) = res.
Proof. by destruct res. Qed.

Lemma with_validation_spec (state newState : IComponentState) (nds : IDialogContent) :
  dialogState newState = Some nds ->
  disabledActions newState = disabledActions state ->
  let state' := with_validation state newState nds in
  dialogState state' = Some nds /\
  currentDialogId state' = currentDialogId newState /\
  (forall f, condition nds = Some f -> disabledActions state' = f (fields nds)) /\
  (condition nds = None -> disabledActions state' = disabledActions state).
Proof.
  intros Hds Hda. unfold with_validation, validateContent.
  destruct (condition nds) as [g|]; simpl.
  - repeat split; [done| |done]. intros f [= ->]. apply normalised_result.
  - repeat split; done.
Qed.

Lemma existsb_default_Some {A} (p : A -> bool) (o : option (list A)) :
  existsb p (default [] o) = true -> exists l, o = Some l /\ existsb p l = true.
Proof. destruct o as [l|]; simpl; [by exists l | discriminate]. Qed.

(** C6, as stated, fails for a content without a condition function:
    [validateContent] then returns [undefined] and the state keeps its
    [disabledActions].  After the name prompt came up with an empty name,
    [Save] is disabled; when the queue head then becomes the sample
    dialog, which has no condition, the entry is still there. *)
Lemma disabledActions_kept_without_condition :
  let prompt := {| t := sample_t; dialogs := [name_dialog] |} in
  let state1 := (componentWillReceiveProps prompt false initial_state).1 in
  let state2 := (componentWillReceiveProps sample_props false state1).1 in
  occurs (Switch sample_props false) state1 = true /\
  dialogState state2 = Some (d_content sample_dialog) /\
  condition (d_content sample_dialog) = None /\
  disabledActions state2 =
    [ {| cr_id := "name"; cr_actions := ["Save"]; cr_errorText := "Name is required" |} ] /\
  disabledActions state2 <> [] /\
  ~ (exists f, condition (d_content sample_dialog) = Some f /\
               disabledActions state2 = f (fields (d_content sample_dialog))).
Proof.
  repeat split; try discriminate. by intros (f & Hf & _).
Qed.

(** C6, amended.  Let the event be a dialog switch (the queue of the new
    props has a head whose id is not the current one) or a widget change
    (an input edit, a checkbox toggle, a radio selection on a widget of
    the dialog state).  The handler then yields a state with a dialog
    content.  When that content has a condition function, the state's
    [disabledActions] is the result of the condition on that content, the
    empty list when the condition yields no entries.  When it has none,
    [disabledActions] is what it was before the event. *)
Theorem disabledActions_follow_condition (ev : Event) (state : IComponentState) :
  occurs ev state = true ->
  exists state' ds',
    handle ev state = Some state' /\
    dialogState state' = Some ds' /\
    (forall f, condition ds' = Some f ->
       disabledActions state' = f (fields ds') /\
       (length (f (fields ds')) = 0 -> disabledActions state' = [])) /\
    (condition ds' = None -> disabledActions state' = disabledActions state).
Proof.
  intros Hoc.
  assert (forall newState nds,
            handle ev state = Some (with_validation state newState nds) ->
            dialogState newState = Some nds ->
            disabledActions newState = disabledActions state ->
            exists state' ds',
              handle ev state = Some state' /\
              dialogState state' = Some ds' /\
              (forall f, condition ds' = Some f ->
                 disabledActions state' = f (fields ds') /\
                 (length (f (fields ds')) = 0 -> disabledActions state' = [])) /\
              (condition ds' = None -> disabledActions state' = disabledActions state))
    as Hgen.
  { intros newState nds Hh Hds Hda.
    destruct (with_validation_spec state newState nds Hds Hda) as (H1 & _ & H3 & H4).
    exists (with_validation state newState nds), nds.
    repeat split; try done.
    - by apply H3.
    - intros Hlen. rewrite (H3 f) by done. by destruct (f (fields nds)). }
  destruct ev as [newProps isMinimized|target_id value|target_id|target_id];
    simpl in Hoc.
  - destruct (dialogs newProps) as [|d rest] eqn:Hd; [discriminate|].
    eapply Hgen.
    + simpl. unfold componentWillReceiveProps. by rewrite Hd, Hoc.
    + reflexivity.
    + reflexivity.
  - destruct (dialogState state) as [ds|] eqn:Hds; [|discriminate].
    apply existsb_default_Some in Hoc as (inputs & Hin & _).
    eapply Hgen.
    + simpl. unfold changeInput. rewrite Hds. simpl. by rewrite Hin.
    + reflexivity.
    + reflexivity.
  - destruct (dialogState state) as [ds|] eqn:Hds; [|discriminate].
    apply existsb_default_Some in Hoc as (boxes & Hin & Hex).
    destruct (findIndex_existsb _ _ Hex) as [idx Hidx].
    destruct (findIndex_Some _ _ _ Hidx) as (box & Hbox & _).
    eapply Hgen.
    + simpl. unfold toggleCheckbox. rewrite Hds. simpl. rewrite Hin. simpl.
      rewrite Hidx. simpl. by rewrite Hbox.
    + reflexivity.
    + reflexivity.
  - destruct (dialogState state) as [ds|] eqn:Hds; [|discriminate].
    apply existsb_default_Some in Hoc as (radios & Hin & Hex).
    destruct (findIndex_existsb _ _ Hex) as [idx Hidx].
    destruct (findIndex_Some _ _ _ Hidx) as (box & Hbox & _).
    eapply Hgen.
    + simpl. unfold toggleRadio. rewrite Hds. simpl. rewrite Hin. simpl.
      rewrite Hidx. simpl. by rewrite list_lookup_fmap, Hbox.
    + reflexivity.
    + reflexivity.
Qed.

(** *** render *)

(** At a dialog switch the component state takes the content of the new
    head of the queue; the widget handlers then update this copy. *)
Lemma switch_takes_head_content (newProps : IProps) (isMinimized : bool)
    (state : IComponentState) (d : IDialog) (rest : list IDialog) :
  dialogs newProps = d :: rest ->
  Some (d_id d) <> currentDialogId state ->
  let state' := (componentWillReceiveProps newProps isMinimized state).1 in
  currentDialogId state' = Some (d_id d) /\ dialogState state' = Some (d_content d).
Proof.
  intros Hd Hid. unfold componentWillReceiveProps. rewrite Hd.
  rewrite bool_decide_true by done. simpl.
  unfold with_validation. by destruct (validateContent _ _).
Qed.

(** C1, as stated, fails on the content: the body is rendered from the
    content held in the component state, not from the content of the
    queued dialog.  After the sample dialog came up and its checkbox was
    toggled, the body shows the box checked, and the queued dialog still
    has it unchecked. *)
Lemma render_body_is_state_content :
  let shown := fst (componentWillReceiveProps sample_props false initial_state) in
  match toggleCheckbox "remember" shown with
  | Some state =>
      head (dialogs sample_props) = Some sample_dialog /\
      modal_part "Modal.Body" (render sample_props state) <>
      Some [ renderContent sample_props state
               (d_content sample_dialog) (d_content sample_dialog) ]
  | None => False
  end.
Proof. vm_compute. split; [reflexivity | discriminate]. Qed.

(** C1, amended.  [render] yields [null] exactly when the queue is empty
    or the component state holds no dialog content.  Otherwise it yields
    the modal of the first queued dialog: the icon of its type and its
    translated title in the header, one [Action] per entry of its action
    list in the footer, in order, the default action marked; the body is
    rendered from the content held in the component state. *)
Theorem render_head_dialog (props : IProps) (state : IComponentState) :
  (render props state = Null <-> dialogs props = [] \/ dialogState state = None) /\
  match dialogs props, dialogState state with
  | dialog :: _, Some ds =>
      exists footer,
        render props state =
          Elem "Modal"
            [("className",
              PString ("common-dialog-" +:+
                       (if bool_decide (htmlFile (fields (d_content dialog)) <> None) ||
                           bool_decide (htmlText (fields (d_content dialog)) <> None)
                        then "wide" else "regular")));
             ("show", PBool true);
             ("onHide", PHandler h_nop)]
            [ Elem "Modal.Header" []
                [Elem "Modal.Title" []
                   [iconForType (d_type dialog); Text " ";
                    Text (t props (d_title dialog) None)]];
              Elem "Modal.Body" [] [renderContent props state ds ds];
              Elem "Modal.Footer" [] footer ] /\
        Forall2
          (fun action button =>
             exists isDisabled,
               button =
               Elem "Action"
                 [("t", PTranslate); ("key", PString action); ("action", PString action);
                  ("isDefault", PBool (bool_decide (Some action = d_defaultAction dialog)));
                  ("onDismiss", PHandler h_dismiss); ("isDisabled", PBool isDisabled)] [])
          (d_actions dialog) footer
  | _, _ => render props state = Null
  end.
Proof.
  unfold render. destruct (dialogs props) as [|dialog rest]; simpl.
  - split; [|done]. split; auto.
  - destruct (dialogState state) as [ds|]; simpl.
    + split; [split; [discriminate | intros [?|?]; discriminate]|].
      eexists. split; [reflexivity|].
      induction (d_actions dialog) as [|action actions IH]; simpl; constructor; [|done].
      by eexists.
    + split; [|done]. split; auto.
Qed.

(** *** dismiss *)

Lemma put_boxes_fold (l : list ICheckbox) (data : gmap string DataValue) :
  put_boxes (Some l) data =
  fold_left (fun data w => JS.set_property w.1 w.2 data) (map box_entry l) data.
Proof. simpl. revert data. induction l as [|a l IH]; intros data; simpl; [done|]. apply IH. Qed.

Lemma put_inputs_fold (l : list IInput) (data : gmap string DataValue) :
  put_inputs (Some l) data =
  fold_left (fun data w => JS.set_property w.1 w.2 data) (map input_entry l) data.
Proof. simpl. revert data. induction l as [|a l IH]; intros data; simpl; [done|]. apply IH. Qed.

Lemma dismiss_data_fold (c : ContentFields) :
  dismiss_data c =
  fold_left (fun data w => JS.set_property w.1 w.2 data) (widget_values c) ∅.
Proof.
  unfold dismiss_data, widget_values. rewrite !fold_left_app.
  destruct (checkboxes c), (choices c), (input c); simpl;
    rewrite <- ?put_inputs_fold, <- ?put_boxes_fold; reflexivity.
Qed.

Lemma fold_set_lookup (ws : list (string * DataValue)) (data : gmap string DataValue)
    (key : string) :
  key <> "__proto__" ->
  fold_left (fun data w => JS.set_property w.1 w.2 data) ws data !! key =
  match last (filter (fun w => w.1 = key) ws) with
  | Some w => Some w.2
  | None => data !! key
  end.
Proof.
  intros Hkey. induction ws as [|w ws IH] using rev_ind; simpl; [done|].
  rewrite fold_left_app, filter_app, filter_cons, filter_nil. simpl.
  unfold JS.set_property at 1.
  case_decide as Hk.
  - rewrite last_snoc. subst key.
    apply String.eqb_neq in Hkey. rewrite Hkey. apply lookup_insert_eq.
  - rewrite app_nil_r. destruct (String.eqb w.1 "__proto__"); [apply IH|].
    rewrite lookup_insert_ne by done. apply IH.
Qed.

Lemma fold_set_proto (ws : list (string * DataValue)) (data : gmap string DataValue) :
  fold_left (fun data w => JS.set_property w.1 w.2 data) ws data !! "__proto__" =
  data !! "__proto__".
Proof.
  induction ws as [|w ws IH] using rev_ind; simpl; [done|].
  rewrite fold_left_app. simpl. unfold JS.set_property at 1.
  destruct (String.eqb w.1 "__proto__") eqn:E; [apply IH|].
  apply String.eqb_neq in E. rewrite lookup_insert_ne by done. apply IH.
Qed.

Lemma last_filter_NoDup (ws : list (string * DataValue)) (key : string) (value : DataValue) :
  NoDup ws.*1 -> (key, value) ∈ ws ->
  last (filter (fun w => w.1 = key) ws) = Some (key, value).
Proof.
  induction ws as [|[k v] ws IH] using rev_ind; intros Hnd Hin.
  - by apply not_elem_of_nil in Hin.
  - rewrite fmap_app in Hnd. apply NoDup_app in Hnd as (Hnd & Hdisj & _).
    rewrite filter_app, filter_cons, filter_nil. simpl.
    apply elem_of_app in Hin as [Hin|Hin].
    + rewrite decide_False.
      * rewrite app_nil_r. by apply IH.
      * intros ->. apply (Hdisj key); [|simpl; left].
        apply list_elem_of_fmap. by exists (key, value).
    + apply list_elem_of_singleton in Hin as [= -> ->].
      rewrite decide_True by done. apply last_snoc.
Qed.

(** C5, as stated, fails when two widgets share an id: with a checkbox
    and an input of id [a], the record maps [a] to the value of the
    input, not to the value of the checkbox.  It also fails for a widget
    of id [__proto__]: the assignment stores nothing, and the record has
    no entry for the widget. *)
Lemma dismiss_shared_id :
  (let props := {| t := sample_t; dialogs := [shared_id_dialog] |} in
   let state := (componentWillReceiveProps props false initial_state).1 in
   dialogState state = Some shared_id_content /\
   ("a", VBool true) ∈ widget_values (fields shared_id_content) /\
   exists data,
     dismiss props state "Close" =
       Some [ {| dc_id := "dialog-4"; dc_action := "Close"; dc_input := data |} ] /\
     data !! "a" = Some (VString "x") /\
     data !! "a" <> Some (VBool true)) /\
  (let props := {| t := sample_t; dialogs := [proto_id_dialog] |} in
   let state := (componentWillReceiveProps props false initial_state).1 in
   dialogState state = Some proto_id_content /\
   widget_values (fields proto_id_content) = [("__proto__", VBool true)] /\
   dismiss props state "Close" =
     Some [ {| dc_id := "dialog-5"; dc_action := "Close"; dc_input := ∅ |} ]).
Proof.
  split.
  - split; [reflexivity|]. split; [by left|].
    eexists. split; [reflexivity|]. by vm_compute.
  - by vm_compute.
Qed.

(** C5, amended.  When a dialog is displayed (the queue has a head and
    the component state holds a content), [dismiss] calls [onDismiss]
    exactly once, with the id of the first queued dialog, the pressed
    action and a record that maps every checkbox id, choice id and input
    id of the dialog state, other than [__proto__], to the current value
    of the last widget that carries this id, in the order checkboxes,
    choices, inputs, and that has no other key.  When the ids are
    pairwise distinct, this is the value of the widget itself. *)
Theorem dismiss_reports_widgets (props : IProps) (state : IComponentState)
    (action : string) (dialog : IDialog) (rest : list IDialog) (ds : IDialogContent) :
  dialogs props = dialog :: rest ->
  dialogState state = Some ds ->
  exists data,
    dismiss props state action =
      Some [ {| dc_id := d_id dialog; dc_action := action; dc_input := data |} ] /\
    (forall key,
       key <> "__proto__" ->
       data !! key =
       snd <$> last (filter (fun w => w.1 = key) (widget_values (fields ds)))) /\
    data !! "__proto__" = None /\
    (NoDup (widget_values (fields ds)).*1 ->
     forall key value,
       key <> "__proto__" ->
       (key, value) ∈ widget_values (fields ds) -> data !! key = Some value).
Proof.
  intros Hd Hds. exists (dismiss_data (fields ds)).
  assert (forall key,
            key <> "__proto__" ->
            dismiss_data (fields ds) !! key =
            snd <$> last (filter (fun w => w.1 = key) (widget_values (fields ds))))
    as Hlook.
  { intros key Hkey. rewrite dismiss_data_fold, fold_set_lookup by done.
    destruct (last _); [done|]. apply lookup_empty. }
  split; [|split; [|split]].
  - unfold dismiss. rewrite Hds. simpl. rewrite Hd. reflexivity.
  - exact Hlook.
  - rewrite dismiss_data_fold, fold_set_proto. apply lookup_empty.
  - intros Hnd key value Hkey Hin. rewrite Hlook by done.
    by rewrite (last_filter_NoDup _ key value).
Qed.

Lemma dismiss_reports_widgets_witness :
  let state := fst (componentWillReceiveProps sample_props false initial_state) in
  dialogs sample_props = sample_dialog :: [] /\
  dialogState state = Some (d_content sample_dialog) /\
  exists data,
    dismiss sample_props state "Remove" =
      Some [ {| dc_id := "dialog-1"; dc_action := "Remove"; dc_input := data |} ] /\
    data !! "remember" = Some (VBool false).
Proof.
  intros state.
  assert (dialogs sample_props = sample_dialog :: []) as Hd by reflexivity.
  assert (dialogState state = Some (d_content sample_dialog)) as Hds by reflexivity.
  split; [exact Hd|]. split; [exact Hds|].
  destruct (dismiss_reports_widgets sample_props state "Remove" _ _ _ Hd Hds)
    as (data & Hcall & Hlook & _).
  exists data. split; [exact Hcall|].
  rewrite Hlook by done. reflexivity.
Defined.

(** *** Witnesses for the state transitions *)

Lemma toggleRadio_selects_first_with_id_witness :
  dialogState radio_state = Some radio_content /\
  choices (fields radio_content) = Some radio_choices /\
  radio_choices !! 1 =
    Some {| cb_id := "replace"; cb_text := "Replace"; cb_value := false |} /\
  exists state' ds' radios',
    toggleRadio "replace" radio_state = Some state' /\
    dialogState state' = Some ds' /\
    choices (fields ds') = Some radios' /\
    (forall j box', radios' !! j = Some box' -> cb_value box' = true <-> j = 1).
Proof.
  split; [reflexivity|]. split; [reflexivity|]. split; [reflexivity|].
  destruct (toggleRadio_selects_first_with_id radio_state radio_content radio_choices 1
              {| cb_id := "replace"; cb_text := "Replace"; cb_value := false |}
              eq_refl eq_refl eq_refl)
    as (state' & ds' & radios' & idx & H1 & H2 & H3 & _ & _ & _ & _ & H8 & _ & H10 & _).
  assert (idx = 1) as ->.
  { apply H10. intros [|j] other Hj; [|lia]. by intros [= <-]. }
  exists state', ds', radios'. split; [exact H1|]. split; [exact H2|].
  split; [exact H3|].
  intros j box' Hj. destruct (H8 j box' Hj) as (? & _ & _ & _ & Hiff). exact Hiff.
Defined.

Lemma disabledActions_follow_condition_witness :
  let ev := Switch {| t := sample_t; dialogs := [name_dialog] |} false in
  occurs ev initial_state = true /\
  exists state' ds',
    handle ev initial_state = Some state' /\
    dialogState state' = Some ds' /\
    condition ds' = Some name_condition /\
    disabledActions state' = name_condition (fields ds').
Proof.
  intros ev.
  assert (occurs ev initial_state = true) as Hoc by reflexivity.
  split; [exact Hoc|].
  destruct (disabledActions_follow_condition ev initial_state Hoc)
    as (state' & ds' & Hh & Hds & Hcond & _).
  exists state', ds'.
  assert (ds' = d_content name_dialog) as ->.
  { simpl in Hh. injection Hh as <-. simpl in Hds. by injection Hds as <-. }
  split; [exact Hh|]. split; [exact Hds|]. split; [reflexivity|].
  by apply Hcond.
Defined.

(** *** Widget changes, in detail *)

Lemma with_validation_content (state newState : IComponentState) (nds : IDialogContent) :
  dialogState newState = Some nds ->
  dialogState (with_validation state newState nds) = Some nds /\
  currentDialogId (with_validation state newState nds) = currentDialogId newState.
Proof.
  intros H. unfold with_validation. by destruct (validateContent state nds).
Qed.

(** X7.  An edit of the control that [renderInput] shows for an input
    reaches this input: with the DOM id of the control as target,
    [changeInput] stores the new value in the first input carrying the
    id and leaves the other inputs, the condition and the dialog id as
    they are.  Ids that contain dashes are read back in full. *)
Theorem changeInput_edits_rendered_input (state : IComponentState) (ds : IDialogContent)
    (inputs : list IInput) (i : nat) (inp : IInput) (id value : string) :
  dialogState state = Some ds ->
  input (fields ds) = Some inputs ->
  inputs !! i = Some inp ->
  in_id inp = Some id ->
  (forall j other, j < i -> inputs !! j = Some other -> in_id other <> Some id) ->
  exists state' ds',
    changeInput ("dialoginput-" +:+ template (in_id inp)) value state = Some state' /\
    dialogState state' = Some ds' /\
    input (fields ds') =
      Some (<[i := {| in_id := in_id inp; in_type := in_type inp;
                      in_value := Some value; in_label := in_label inp;
                      in_placeholder := in_placeholder inp |}]> inputs) /\
    condition ds' = condition ds /\
    currentDialogId state' = currentDialogId state.
Proof.
  intros Hds Hin Hi Hid Hfirst.
  assert (findIndex (fun form => bool_decide (in_id form = Some id)) inputs = Some i)
    as Hidx.
  { apply (findIndex_first _ _ _ inp); [done|by apply bool_decide_eq_true_2|].
    intros j other Hj Hother. apply bool_decide_eq_false_2. by eapply Hfirst. }
  unfold changeInput. rewrite Hds. cbn [mbind option_bind]. rewrite Hin.
  cbn [mbind option_bind]. rewrite Hid. change (template (Some id)) with id.
  rewrite input_id_read_back, Hidx, Hi, ?Hid.
  rewrite splice1_found by (by eapply lookup_lt_Some).
  eexists _, _. split; [reflexivity|].
  match goal with
  | |- dialogState (with_validation ?s ?n ?d) = _ /\ _ =>
      destruct (with_validation_content s n d eq_refl) as [H1 H2]
  end.
  split; [exact H1|]. split; [reflexivity|]. split; [reflexivity|]. exact H2.
Qed.

Lemma changeInput_edits_rendered_input_witness :
  let state := (componentWillReceiveProps {| t := sample_t; dialogs := [name_dialog] |}
                  false initial_state).1 in
  exists state',
    changeInput "dialoginput-name" "Skyrim" state = Some state' /\
    disabledActions state' = [].
Proof.
  intros state.
  destruct (changeInput_edits_rendered_input state (d_content name_dialog)
              [ {| in_id := Some "name"; in_type := None; in_value := None;
                   in_label := Some "Name"; in_placeholder := None |} ]
              0 {| in_id := Some "name"; in_type := None; in_value := None;
                   in_label := Some "Name"; in_placeholder := None |}
              "name" "Skyrim" eq_refl eq_refl eq_refl eq_refl)
    as (state' & ds' & Hch & _).
  - intros j other Hj. lia.
  - exists state'. split; [exact Hch|].
    simpl in Hch. injection Hch as <-. reflexivity.
Defined.

(** X8.  An edit whose target names no input of the dialog state does
    not fail: the last input is replaced by an entry that has the new
    value and no id, label, type or placeholder, and a dialog state
    without inputs gets this entry as its only input. *)
Theorem changeInput_unknown_target (state : IComponentState) (ds : IDialogContent)
    (inputs : list IInput) (target_id value : string) :
  dialogState state = Some ds ->
  input (fields ds) = Some inputs ->
  (forall inp, inp ∈ inputs ->
     in_id inp <> Some (JS.join "-" (drop 1 (JS.split "-" target_id)))) ->
  exists state' ds',
    changeInput target_id value state = Some state' /\
    dialogState state' = Some ds' /\
    input (fields ds') =
      Some (take (length inputs - 1) inputs ++
            [ {| in_id := None; in_type := None; in_value := Some value;
                 in_label := None; in_placeholder := None |} ]).
Proof.
  intros Hds Hin Hnone.
  assert (findIndex
            (fun form => bool_decide
               (in_id form = Some (JS.join "-" (drop 1 (JS.split "-" target_id)))))
            inputs = None) as Hidx.
  { apply findIndex_None. intros inp Hinp. apply bool_decide_eq_false_2. by apply Hnone. }
  unfold changeInput. rewrite Hds. cbn [mbind option_bind]. rewrite Hin.
  cbn [mbind option_bind]. rewrite Hidx.
  eexists _, _. split; [reflexivity|].
  match goal with
  | |- dialogState (with_validation ?s ?n ?d) = _ /\ _ =>
      destruct (with_validation_content s n d eq_refl) as [H1 H2]
  end.
  split; [exact H1|]. simpl. f_equal. by destruct inputs.
Qed.

Lemma changeInput_unknown_target_witness :
  let state := (componentWillReceiveProps {| t := sample_t; dialogs := [name_dialog] |}
                  false initial_state).1 in
  exists state' ds',
    changeInput "dialoginput-other" "x" state = Some state' /\
    dialogState state' = Some ds' /\
    input (fields ds') =
      Some [ {| in_id := None; in_type := None; in_value := Some "x";
                in_label := None; in_placeholder := None |} ].
Proof.
  intros state.
  destruct (changeInput_unknown_target state (d_content name_dialog)
              [ {| in_id := Some "name"; in_type := None; in_value := None;
                   in_label := Some "Name"; in_placeholder := None |} ]
              "dialoginput-other" "x" eq_refl eq_refl)
    as (state' & ds' & Hch & Hds & Hin).
  - intros inp Hinp. apply list_elem_of_singleton in Hinp as ->. by vm_compute.
  - by exists state', ds'.
Defined.

Lemma findIndex_fmap {A} (p : A -> bool) (l1 l2 : list A) :
  p <$> l1 = p <$> l2 -> findIndex p l1 = findIndex p l2.
Proof.
  revert l2. induction l1 as [|a l1 IH]; intros [|b l2] H; try done.
  simpl in *. injection H as Hab H. rewrite Hab. by rewrite (IH l2).
Qed.

Lemma findIndex_insert_same {A} (p : A -> bool) (l : list A) (i : nat) (x y : A) :
  l !! i = Some x -> p y = p x -> findIndex p (<[i := y]> l) = findIndex p l.
Proof.
  intros Hx Hp. apply findIndex_fmap. rewrite list_fmap_insert.
  apply list_insert_id. by rewrite list_lookup_fmap, Hx, Hp.
Qed.

Lemma set_checkboxes_same (c : ContentFields) (l : list ICheckbox) :
  checkboxes c = Some l -> set_checkboxes c l = c.
Proof. destruct c. simpl. by intros ->. Qed.

Lemma toggleCheckbox_Some (target_id : string) (state state' : IComponentState) :
  toggleCheckbox target_id state = Some state' ->
  exists ds boxes idx box,
    dialogState state = Some ds /\
    checkboxes (fields ds) = Some boxes /\
    findIndex (fun box => String.eqb (cb_id box) target_id) boxes = Some idx /\
    boxes !! idx = Some box /\
    let nds := update_fields ds
                 (set_checkboxes (fields ds)
                    (<[idx := {| cb_id := cb_id box; cb_text := cb_text box;
                                 cb_value := negb (cb_value box) |}]> boxes)) in
    state' = with_validation state (set_dialogState state nds) nds.
Proof.
  unfold toggleCheckbox. intros H.
  destruct (dialogState state) as [ds|] eqn:Hds; [|done]. cbn [mbind option_bind] in H.
  destruct (checkboxes (fields ds)) as [boxes|] eqn:Hcb; [|done].
  cbn [mbind option_bind] in H.
  destruct (findIndex _ boxes) as [idx|] eqn:Hidx; [|done]. cbn [mbind option_bind] in H.
  destruct (boxes !! idx) as [box|] eqn:Hbox; [|done]. cbn [mbind option_bind] in H.
  injection H as <-. by exists ds, boxes, idx, box.
Qed.

(** X9.  [toggleCheckbox] inverts the value of the first checkbox that
    carries the target id and nothing else; it throws exactly when the
    dialog state has no checkbox with that id. *)
Theorem toggleCheckbox_flips (target_id : string) (state : IComponentState)
    (ds : IDialogContent) (boxes : list ICheckbox) :
  dialogState state = Some ds ->
  checkboxes (fields ds) = Some boxes ->
  (toggleCheckbox target_id state = None <->
   forall box, box ∈ boxes -> cb_id box <> target_id) /\
  (forall state', toggleCheckbox target_id state = Some state' ->
     exists i box ds',
       boxes !! i = Some box /\ cb_id box = target_id /\
       (forall j other, j < i -> boxes !! j = Some other -> cb_id other <> target_id) /\
       dialogState state' = Some ds' /\
       checkboxes (fields ds') =
         Some (<[i := {| cb_id := cb_id box; cb_text := cb_text box;
                         cb_value := negb (cb_value box) |}]> boxes) /\
       choices (fields ds') = choices (fields ds) /\
       input (fields ds') = input (fields ds) /\
       condition ds' = condition ds /\
       currentDialogId state' = currentDialogId state).
Proof.
  intros Hds Hcb. split.
  - unfold toggleCheckbox. rewrite Hds. cbn [mbind option_bind]. rewrite Hcb.
    cbn [mbind option_bind].
    destruct (findIndex _ boxes) as [idx|] eqn:Hidx; cbn [mbind option_bind].
    + destruct (findIndex_Some _ _ _ Hidx) as (box & Hbox & Hp & _).
      rewrite Hbox. cbn [mbind option_bind]. split; [done|].
      intros H. apply String.eqb_eq in Hp. exfalso. apply (H box); [|done].
      by eapply list_elem_of_lookup_2.
    + split; [|done]. intros _ box Hbox.
      apply String.eqb_neq.
      by apply (proj1 (findIndex_None (fun box => String.eqb (cb_id box) target_id) boxes)).
  - intros state' H.
    destruct (toggleCheckbox_Some _ _ _ H) as (ds0 & boxes0 & idx & box & Hds0 & Hcb0 &
                                                Hidx & Hbox & ->).
    rewrite Hds in Hds0. injection Hds0 as <-.
    rewrite Hcb in Hcb0. injection Hcb0 as <-.
    destruct (findIndex_Some _ _ _ Hidx) as (box' & Hbox' & Hp & Hmin).
    rewrite Hbox in Hbox'. injection Hbox' as <-.
    apply String.eqb_eq in Hp.
    eexists idx, box, _.
    match goal with
    | |- context [with_validation ?s ?n ?d] =>
        destruct (with_validation_content s n d eq_refl) as [H1 H2]
    end.
    split; [done|]. split; [done|]. split.
    { intros j other Hj Hother. apply String.eqb_neq. by eapply Hmin. }
    split; [exact H1|]. repeat split. exact H2.
Qed.

Lemma toggleCheckbox_flips_witness :
  let state := (componentWillReceiveProps sample_props false initial_state).1 in
  dialogState state = Some (d_content sample_dialog) /\
  toggleCheckbox "forget" state = None /\
  is_Some (toggleCheckbox "remember" state).
Proof.
  intros state.
  destruct (toggleCheckbox_flips "forget" state (d_content sample_dialog)
              [ {| cb_id := "remember"; cb_text := "Remember my choice";
                   cb_value := false |} ] eq_refl eq_refl) as [Hnone _].
  split; [reflexivity|]. split.
  - apply Hnone. intros box Hbox. apply list_elem_of_singleton in Hbox as ->. discriminate.
  - by eexists.
Defined.

(** X10.  Toggling the same checkbox twice gives back the dialog content
    the component had: after the second toggle the dialog state and the
    dialog id are those before the first. *)
Theorem toggleCheckbox_twice (target_id : string) (state state1 : IComponentState) :
  toggleCheckbox target_id state = Some state1 ->
  exists state2,
    toggleCheckbox target_id state1 = Some state2 /\
    dialogState state2 = dialogState state /\
    currentDialogId state2 = currentDialogId state.
Proof.
  intros H.
  destruct (toggleCheckbox_Some _ _ _ H) as (ds & boxes & idx & box & Hds & Hcb &
                                              Hidx & Hbox & Hs1).
  set (flipped := {| cb_id := cb_id box; cb_text := cb_text box;
                     cb_value := negb (cb_value box) |}) in *.
  set (nds := update_fields ds (set_checkboxes (fields ds) (<[idx := flipped]> boxes))) in *.
  cbv zeta in Hs1.
  destruct (with_validation_content state (set_dialogState state nds) nds eq_refl)
    as [Hds1 Hid1].
  rewrite <- Hs1 in Hds1, Hid1.
  assert (idx < length boxes) as Hlt by (by eapply lookup_lt_Some).
  assert (findIndex (fun box => String.eqb (cb_id box) target_id) (<[idx := flipped]> boxes)
          = Some idx) as Hidx'.
  { by rewrite (findIndex_insert_same _ _ _ box). }
  assert (<[idx := flipped]> boxes !! idx = Some flipped) as Hbox'
    by (by apply list_lookup_insert_eq).
  assert (update_fields nds
            (set_checkboxes (fields nds)
               (<[idx := {| cb_id := cb_id flipped; cb_text := cb_text flipped;
                            cb_value := negb (cb_value flipped) |}]>
                  (<[idx := flipped]> boxes))) = ds) as Hback.
  { rewrite list_insert_insert_eq. simpl. rewrite negb_involutive.
    assert ({| cb_id := cb_id box; cb_text := cb_text box; cb_value := cb_value box |}
            = box) as -> by (by destruct box).
    rewrite (list_insert_id boxes idx box) by done.
    unfold update_fields, nds. simpl.
    change (set_checkboxes (set_checkboxes (fields ds) (<[idx:=flipped]> boxes)) boxes)
      with (set_checkboxes (fields ds) boxes).
    rewrite set_checkboxes_same by done. by destruct ds. }
  eexists. split.
  - unfold toggleCheckbox. rewrite Hds1. cbn [mbind option_bind].
    change (checkboxes (fields nds)) with (Some (<[idx := flipped]> boxes)).
    cbn [mbind option_bind]. rewrite Hidx'. cbn [mbind option_bind].
    rewrite Hbox'. cbn [mbind option_bind]. rewrite Hback. reflexivity.
  - destruct (with_validation_content state1 (set_dialogState state1 ds) ds eq_refl)
      as [-> ->]. split; [done|]. exact Hid1.
Qed.

Lemma toggleCheckbox_twice_witness :
  let state := (componentWillReceiveProps sample_props false initial_state).1 in
  exists state1 state2,
    toggleCheckbox "remember" state = Some state1 /\
    toggleCheckbox "remember" state1 = Some state2 /\
    dialogState state2 = dialogState state.
Proof.
  intros state.
  assert (is_Some (toggleCheckbox "remember" state)) as [state1 H1] by (by eexists).
  destruct (toggleCheckbox_twice "remember" state state1 H1) as (state2 & H2 & H3 & _).
  by exists state1, state2.
Defined.

Lemma toggleRadio_Some (target_id : string) (state state' : IComponentState) :
  toggleRadio target_id state = Some state' ->
  exists ds radios idx x,
    dialogState state = Some ds /\
    choices (fields ds) = Some radios /\
    findIndex (fun box => String.eqb (cb_id box) target_id) radios = Some idx /\
    radios !! idx = Some x /\
    let clear := fun choice : ICheckbox =>
      {| cb_id := cb_id choice; cb_text := cb_text choice; cb_value := false |} in
    let nds := update_fields ds
                 (set_choices (fields ds)
                    (<[idx := {| cb_id := cb_id x; cb_text := cb_text x;
                                 cb_value := true |}]> (map clear radios))) in
    state' = with_validation state (set_dialogState state nds) nds.
Proof.
  unfold toggleRadio. intros H.
  destruct (dialogState state) as [ds|] eqn:Hds; [|done]. cbn [mbind option_bind] in H.
  destruct (choices (fields ds)) as [radios|] eqn:Hch; [|done].
  cbn [mbind option_bind] in H.
  destruct (findIndex _ radios) as [idx|] eqn:Hidx; [|done]. cbn [mbind option_bind] in H.
  rewrite list_lookup_fmap in H.
  destruct (radios !! idx) as [x|] eqn:Hx; [|done]. cbn [mbind option_bind fmap option_fmap option_map] in H.
  injection H as <-. by exists ds, radios, idx, x.
Qed.

(** X11.  Selecting the selected radio button again changes nothing: a
    second [toggleRadio] with the same target yields the state that the
    first one gave. *)
Theorem toggleRadio_again (target_id : string) (state state1 : IComponentState) :
  toggleRadio target_id state = Some state1 ->
  toggleRadio target_id state1 = Some state1.
Proof.
  intros H.
  destruct (toggleRadio_Some _ _ _ H) as (ds & radios & idx & x & Hds & Hch &
                                           Hidx & Hx & Hs1).
  set (clear := fun choice : ICheckbox =>
         {| cb_id := cb_id choice; cb_text := cb_text choice; cb_value := false |}) in *.
  set (sel := {| cb_id := cb_id x; cb_text := cb_text x; cb_value := true |}) in *.
  set (radios1 := <[idx := sel]> (map clear radios)) in *.
  set (nds := update_fields ds (set_choices (fields ds) radios1)) in *.
  cbv zeta in Hs1. fold clear sel radios1 nds in Hs1. subst state1.
  destruct (with_validation_content state (set_dialogState state nds) nds eq_refl)
    as [Hds1 _].
  assert (map clear radios !! idx = Some (clear x)) as Hcx
    by (by rewrite list_lookup_fmap, Hx).
  assert (findIndex (fun box => String.eqb (cb_id box) target_id) radios1 = Some idx)
    as Hidx1.
  { rewrite <- Hidx. unfold radios1.
    rewrite (findIndex_insert_same _ _ _ (clear x)) by done.
    apply findIndex_fmap. rewrite <- list_fmap_compose. by apply list_fmap_ext. }
  assert (map clear radios1 = map clear radios) as Hclear.
  { unfold radios1. rewrite (list_fmap_insert clear).
    assert (clear <$> map clear radios = map clear radios) as ->.
    { change (map clear radios) with (clear <$> radios).
      rewrite <- list_fmap_compose. by apply list_fmap_ext. }
    apply list_insert_id. exact Hcx. }
  unfold toggleRadio. rewrite Hds1. cbn [mbind option_bind].
  change (choices (fields nds)) with (Some radios1). cbn [mbind option_bind].
  rewrite Hidx1. cbn [mbind option_bind]. fold clear. rewrite Hclear, Hcx.
  cbn [mbind option_bind]. f_equal.
  change (<[idx := {| cb_id := cb_id (clear x); cb_text := cb_text (clear x);
                      cb_value := true |}]> (map clear radios)) with radios1.
  change (update_fields nds (set_choices (fields nds) radios1)) with nds.
  unfold with_validation, validateContent.
  by destruct (condition nds).
Qed.

Lemma toggleRadio_again_witness :
  exists state1,
    toggleRadio "replace" radio_state = Some state1 /\
    toggleRadio "replace" state1 = Some state1.
Proof.
  assert (is_Some (toggleRadio "replace" radio_state)) as [state1 H1] by (by eexists).
  exists state1. split; [exact H1|]. by apply (toggleRadio_again "replace" radio_state).
Defined.

(** *** Validation messages *)

Lemma error_fold_empty (es : list IConditionResult) :
  fold_left (fun errorString error =>
               if negb (String.eqb errorString "")
               then cr_errorText error +:+ JS.nl
               else cr_errorText error) es "" = "" <->
  existsb (fun r => negb (String.eqb (cr_errorText r) "")) es = false.
Proof.
  induction es as [|e es IH] using rev_ind; [done|].
  rewrite fold_left_app, existsb_app. simpl. rewrite orb_false_r.
  destruct (fold_left _ es "") as [|a acc] eqn:Hacc.
  - simpl. destruct IH as [IH _]. rewrite (IH eq_refl). simpl.
    destruct (cr_errorText e); simpl; split; done.
  - simpl. destruct (existsb _ es) eqn:Hex.
    + split; [|done]. unfold JS.nl. by destruct (cr_errorText e).
    + destruct IH as [_ IH]. by specialize (IH eq_refl).
Qed.

(** X12.  [getErrorText] is undefined exactly when the input has no
    validation error.  When it has errors, the text returned is that of
    the last one only, followed by a line feed if an earlier error of the
    input had a text: the texts of earlier errors are not shown. *)
Theorem getErrorText_last_error (state : IComponentState) (input : IInput) :
  (getErrorText state input = None <-> hasValidationError state input = false) /\
  (forall es e,
     filter (fun res => Some (cr_id res) = in_id input) (disabledActions state)
       = es ++ [e] ->
     getErrorText state input =
     Some (if existsb (fun r => negb (String.eqb (cr_errorText r) "")) es
           then cr_errorText e +:+ JS.nl
           else cr_errorText e)).
Proof.
  unfold getErrorText, hasValidationError. split.
  - case_bool_decide as Hlen.
    + split; [|done]. intros _. apply not_true_iff_false. intros Hex.
      apply existsb_elem_of in Hex as (r & Hr & Hid).
      apply bool_decide_eq_true_1 in Hid.
      assert (r ∈ filter (fun res => Some (cr_id res) = in_id input)
                (disabledActions state)) as Hin
        by (by apply list_elem_of_filter).
      destruct (filter _ _); [by apply not_elem_of_nil in Hin | done].
    + split; [done|]. intros Hex. exfalso. apply Hlen.
      destruct (filter _ _) as [|r l] eqn:Hf; [done|].
      assert (r ∈ filter (fun res => Some (cr_id res) = in_id input)
                (disabledActions state)) as Hin by (rewrite Hf; left).
      apply list_elem_of_filter in Hin as [Hid Hin].
      assert (existsb (fun res => bool_decide (Some (cr_id res) = in_id input))
                (disabledActions state) = true) as Htrue.
      { apply existsb_elem_of. exists r. split; [done|]. by apply bool_decide_eq_true_2. }
      congruence.
  - intros es e ->. rewrite bool_decide_false.
    + f_equal. rewrite fold_left_app. simpl.
      pose proof (error_fold_empty es) as Hempty.
      destruct (fold_left _ es "") as [|a acc]; simpl.
      * destruct Hempty as [Hempty _]. by rewrite (Hempty eq_refl).
      * destruct (existsb _ es); [done|]. destruct Hempty as [_ Hempty].
        by specialize (Hempty eq_refl).
    + rewrite length_app. simpl. lia.
Qed.

Lemma getErrorText_last_error_witness :
  let state := {| currentDialogId := Some "dialog-2"; dialogState := None;
                  disabledActions :=
                    [ {| cr_id := "name"; cr_actions := ["Save"];
                         cr_errorText := "Name is required" |};
                      {| cr_id := "name"; cr_actions := ["Save"];
                         cr_errorText := "Name is too short" |} ] |} in
  let input := {| in_id := Some "name"; in_type := None; in_value := None;
                  in_label := None; in_placeholder := None |} in
  getErrorText state input = Some ("Name is too short" +:+ JS.nl).
Proof.
  intros state input.
  destruct (getErrorText_last_error state input) as [_ H].
  rewrite (H [ {| cr_id := "name"; cr_actions := ["Save"];
                  cr_errorText := "Name is required" |} ]
             {| cr_id := "name"; cr_actions := ["Save"];
                cr_errorText := "Name is too short" |}); reflexivity.
Defined.

(** *** Messages shown as translated *)

Lemma replaceAll_split (a b c : ascii) (s : string) :
  a <> c -> b <> c ->
  JS.replaceAll a b <$> JS.split c s = JS.split c (JS.replaceAll a b s).
Proof.
  intros Ha Hb. induction s as [|x s IH]; [done|].
  cbn [JS.split JS.replaceAll]. rewrite <- IH.
  destruct (Ascii.eqb x c) eqn:Hxc.
  - apply Ascii.eqb_eq in Hxc as ->.
    assert (Ascii.eqb c a = false) as -> by (apply Ascii.eqb_neq; congruence).
    by rewrite Ascii.eqb_refl, fmap_cons.
  - assert (Ascii.eqb (if Ascii.eqb x a then b else x) c = false) as ->.
    { destruct (Ascii.eqb x a); [by apply Ascii.eqb_neq | done]. }
    destruct (JS.split c s) as [|h t]; [done|].
    by rewrite !fmap_cons.
Qed.

(** X13.  For a message that is shown as it is (the translation returns
    its input, as the [translated] option of a content makes it),
    [translateParts] returns the message with every tab replaced by a
    space, and nothing else changed. *)
Theorem translateParts_translated (message : string) (parameters : option Params) :
  translateParts message (fun input _ => input) parameters =
  JS.replaceAll JS.TAB " " message.
Proof.
  unfold translateParts.
  assert (forall line,
            JS.join " " (map (fun block : string => block) (JS.split JS.TAB line)) =
            JS.replaceAll JS.TAB " " line) as Hline.
  { intros line. rewrite map_id. apply (JSFacts.join_split_replace JS.TAB " "). }
  rewrite (map_ext _ _ Hline).
  change (map (JS.replaceAll JS.TAB " ") (JS.split JS.LF message))
    with (JS.replaceAll JS.TAB " " <$> JS.split JS.LF message).
  rewrite replaceAll_split by done.
  apply (JSFacts.join_split JS.LF).
Qed.

(** *** The view and its handlers together *)

(** X14.  A button can be pressed exactly when pressing it can be
    handled: [render] shows a modal if and only if [dismiss] makes its
    call instead of throwing. *)
Theorem render_iff_dismiss (props : IProps) (state : IComponentState) (action : string) :
  render props state <> Null <-> is_Some (dismiss props state action).
Proof.
  unfold render, dismiss.
  destruct (dialogState state) as [ds|]; destruct (dialogs props) as [|d rest]; simpl.
  - split; [done|]. by intros [? ?].
  - split; [by eexists | done].
  - split; [done|]. by intros [? ?].
  - split; [done|]. by intros [? ?].
Qed.

(** X15.  A dialog that is already queued when the component mounts is
    taken over without validation, and the props that follow with the
    same head do not make up for it: the state keeps the
    [disabledActions] it had, the window is not raised, and the
    condition of the content is not evaluated before the first widget
    change. *)
Theorem mount_skips_validation (props : IProps) (isMinimized : bool)
    (state : IComponentState) (d : IDialog) (rest : list IDialog) :
  dialogs props = d :: rest ->
  let mounted := componentWillMount props state in
  dialogState mounted = Some (d_content d) /\
  currentDialogId mounted = Some (d_id d) /\
  disabledActions mounted = disabledActions state /\
  componentWillReceiveProps props isMinimized mounted = (mounted, []).
Proof.
  intros Hd. unfold componentWillMount, componentWillReceiveProps. rewrite Hd. simpl.
  repeat split. by rewrite bool_decide_false by (by intros H; apply H).
Qed.

Lemma mount_skips_validation_witness :
  let props := {| t := sample_t; dialogs := [name_dialog] |} in
  let mounted := componentWillMount props initial_state in
  disabledActions mounted = [] /\
  name_condition (fields (d_content name_dialog)) <> [] /\
  componentWillReceiveProps props false mounted = (mounted, []).
Proof.
  intros props mounted.
  destruct (mount_skips_validation props false initial_state name_dialog [] eq_refl)
    as (_ & _ & Hda & Hsame).
  split; [exact Hda|]. split; [discriminate|]. exact Hsame.
Defined.

(** X16.  Receiving the same props a second time changes nothing: the
    state stays as the first call left it and the window is not raised
    again. *)
Theorem componentWillReceiveProps_again (props : IProps) (isMinimized again : bool)
    (state : IComponentState) :
  let state' := (componentWillReceiveProps props isMinimized state).1 in
  componentWillReceiveProps props again state' = (state', []).
Proof.
  intros state'. destruct (dialogs props) as [|d rest] eqn:Hd.
  - unfold componentWillReceiveProps. by rewrite Hd.
  - assert (currentDialogId state' = Some (d_id d)) as Hcur.
    { unfold state', componentWillReceiveProps. rewrite Hd.
      case_bool_decide as Hid; cbn [fst].
      - match goal with
        | |- currentDialogId (with_validation ?s ?n ?c) = _ =>
            by destruct (with_validation_content s n c eq_refl) as [_ ->]
        end.
      - by symmetry. }
    unfold componentWillReceiveProps. rewrite Hd, Hcur.
    by rewrite bool_decide_false by (by intros H; apply H).
Qed.

Lemma disabled_iff_listed (action : string) (l : DisabledActions) :
  existsb (fun res => existsb (fun act => String.eqb act action) (cr_actions res)) l =
  bool_decide (Exists (fun res => action ∈ cr_actions res) l).
Proof.
  destruct (existsb _ l) eqn:E; symmetry.
  - apply bool_decide_eq_true_2, Exists_exists.
    apply existsb_elem_of in E as (res & Hres & Hact).
    apply existsb_elem_of in Hact as (act & Hact & Heq).
    apply String.eqb_eq in Heq as ->. by exists res.
  - apply bool_decide_eq_false_2. intros (res & Hres & Hact)%Exists_exists.
    apply not_true_iff_false in E. apply E.
    apply existsb_elem_of. exists res. split; [done|].
    apply existsb_elem_of. exists action. split; [done|]. apply String.eqb_refl.
Qed.

(** X17.  After a dialog came up whose content has a condition, the
    footer shows one button per action of the dialog, and the button of
    an action is disabled exactly when an entry of the condition's
    result lists the action. *)
Theorem footer_after_switch (newProps : IProps) (isMinimized : bool)
    (state : IComponentState) (d : IDialog) (rest : list IDialog)
    (f : ContentFields -> DisabledActions) :
  dialogs newProps = d :: rest ->
  Some (d_id d) <> currentDialogId state ->
  condition (d_content d) = Some f ->
  let state' := (componentWillReceiveProps newProps isMinimized state).1 in
  modal_part "Modal.Footer" (render newProps state') =
  Some (map (fun action =>
               Elem "Action"
                 [("t", PTranslate); ("key", PString action); ("action", PString action);
                  ("isDefault", PBool (bool_decide (Some action = d_defaultAction d)));
                  ("onDismiss", PHandler h_dismiss);
                  ("isDisabled",
                   PBool (bool_decide
                            (Exists (fun res => action ∈ cr_actions res)
                                    (f (fields (d_content d))))))] [])
            (d_actions d)).
Proof.
  intros Hd Hid Hf state'.
  assert (dialogState state' = Some (d_content d) /\
          disabledActions state' = f (fields (d_content d))) as [Hds Hda].
  { unfold state', componentWillReceiveProps. rewrite Hd, bool_decide_true by done.
    unfold with_validation, validateContent. rewrite Hf. simpl.
    split; [done|]. apply normalised_result. }
  unfold render. rewrite Hd, Hds. simpl. f_equal.
  apply map_ext. intros action. unfold renderAction.
  by rewrite Hda, disabled_iff_listed.
Qed.

Lemma footer_after_switch_witness :
  let props := {| t := sample_t; dialogs := [name_dialog] |} in
  let state' := (componentWillReceiveProps props false initial_state).1 in
  modal_part "Modal.Footer" (render props state') =
  Some [ Elem "Action"
           [("t", PTranslate); ("key", PString "Cancel"); ("action", PString "Cancel");
            ("isDefault", PBool false); ("onDismiss", PHandler h_dismiss);
            ("isDisabled", PBool false)] [];
         Elem "Action"
           [("t", PTranslate); ("key", PString "Save"); ("action", PString "Save");
            ("isDefault", PBool true); ("onDismiss", PHandler h_dismiss);
            ("isDisabled", PBool true)] [] ].
Proof.
  intros props state'.
  unfold state'.
  rewrite (footer_after_switch props false initial_state name_dialog [] name_condition
             eq_refl ltac:(discriminate) eq_refl).
  by vm_compute.
Defined.


End DialogFacts.

(** ** Extension manager *)
Module ExtensionManagerFacts.
Import ExtensionManager.

(** *** loadDynamicExtensions *)

Lemma basename_join (p : Path) (n : string) : basename (join p n) = n.
Proof. unfold basename, join. by rewrite last_snoc. Qed.

Lemma mkdirSync_created (p : Path) (fs created : FS) :
  mkdirSync p fs = Ok created ->
  existsSync created p = true /\
  isDirectory created p = Ok true /\
  readdirSync created p = Ok [] /\
  (forall q, q <> p -> existsSync created q = existsSync fs q).
Proof.
  unfold mkdirSync. destruct (existsSync fs p); [discriminate|].
  destruct (isDirectory fs (dirname p)) as [[|]|]; try discriminate.
  destruct (mkdir_denied fs p); [discriminate|].
  intros [= <-]. cbn [existsSync isDirectory readdirSync].
  rewrite !bool_decide_true by done. repeat split.
  intros q Hq. by rewrite bool_decide_false.
Qed.

Section LoaderFacts.

Context {IExtensionInit : Type}.
Variable fs : FS.
Variable require : @Require IExtensionInit.
Variable extensionsPath : Path.

(** With every entry stat'ed and no module throwing [null] or
    [undefined], the [filter] and the [map] run to their ends. *)
Lemma load_all_spec (names : list string) :
  statable fs extensionsPath names = true ->
  throws_no_nullish fs require extensionsPath names = true ->
  exists directories res,
    filter_result (fun n => isDirectory fs (join extensionsPath n)) names = Ok directories /\
    map_result (try_load fs require extensionsPath) directories = Ok res /\
    filter (fun reg => reg <> None) res =
    Some <$> omap (loaded_registration fs require extensionsPath) names.
Proof.
  induction names as [|n names IH]; intros Hstat Hquiet.
  - by exists [], [].
  - cbn [statable throws_no_nullish forallb] in Hstat, Hquiet.
    apply andb_prop in Hstat as [Hn Hstat]. apply andb_prop in Hquiet as [Hq Hquiet].
    destruct (IH Hstat Hquiet) as (dirs & res & Hdirs & Hres & Hfilter).
    assert (omap (loaded_registration fs require extensionsPath) (n :: names) =
            match loaded_registration fs require extensionsPath n with
            | Some r => r :: omap (loaded_registration fs require extensionsPath) names
            | None => omap (loaded_registration fs require extensionsPath) names
            end) as -> by reflexivity.
    cbn [filter_result]. rewrite Hdirs.
    unfold loaded_registration at 1.
    destruct (isDirectory fs (join extensionsPath n)) as [[|]|] eqn:Hdir;
      [| by exists dirs, res | discriminate Hn].
    assert (forall r, try_load fs require extensionsPath n = Ok r ->
              exists res', map_result (try_load fs require extensionsPath) (n :: dirs) = Ok res' /\
                     filter (fun reg => reg <> None) res' =
                     match r with Some x => Some x :: filter (fun reg => reg <> None) res
                                | None => filter (fun reg => reg <> None) res end) as Hstep.
    { intros r Hr. exists (r :: res). cbn [map_result]. rewrite Hr, Hres. split; [done|].
      rewrite filter_cons. destruct r; case_decide as H; done. }
    unfold try_load, loadDynamicExtension in Hstep. rewrite basename_join in Hstep.
    destruct (existsSync fs (join (join extensionsPath n) "index.js")) eqn:Hidx.
    + destruct (require (join (join extensionsPath n) "index.js")) as [default|e] eqn:Hreq.
      * destruct (Hstep _ eq_refl) as (res' & Hres' & Hf').
        exists (n :: dirs), res'. split; [done|]. split; [done|].
        rewrite Hf', Hfilter. done.
      * destruct e as [message| |]; try discriminate Hq.
        destruct (Hstep _ eq_refl) as (res' & Hres' & Hf').
        exists (n :: dirs), res'. split; [done|]. split; [done|].
        rewrite Hf', Hfilter. done.
    + destruct (Hstep _ eq_refl) as (res' & Hres' & Hf').
      exists (n :: dirs), res'. split; [done|]. split; [done|].
      rewrite Hf', Hfilter. done.
Qed.

(** A [stat] that throws, or a module that throws [null] or
    [undefined], ends the load with an error. *)
Lemma load_all_fails (names : list string) :
  statable fs extensionsPath names = false \/
  throws_no_nullish fs require extensionsPath names = false ->
  match filter_result (fun n => isDirectory fs (join extensionsPath n)) names with
  | Thrown _ => True
  | Ok directories =>
      exists e, map_result (try_load fs require extensionsPath) directories = Thrown e
  end.
Proof.
  induction names as [|n names IH]; intros Hbad.
  - by destruct Hbad.
  - cbn [statable throws_no_nullish forallb] in Hbad. cbn [filter_result].
    destruct (isDirectory fs (join extensionsPath n)) as [b|] eqn:Hdir; [|done].
    assert ((b = true /\
             existsSync fs (join (join extensionsPath n) "index.js") = true /\
             exists e, require (join (join extensionsPath n) "index.js") = Raised e /\
                       nullish e = true) \/
            (statable fs extensionsPath names = false \/
             throws_no_nullish fs require extensionsPath names = false)) as [Hhere|Hrest].
    { destruct Hbad as [Hbad|Hbad]; [right; by left|].
      apply andb_false_iff in Hbad as [Hbad|Hbad]; [|right; by right].
      left. destruct b; [|done].
      destruct (existsSync fs _); [|done].
      destruct (require _) as [|e]; [done|].
      repeat split. exists e. split; [done|]. by apply negb_false_iff. }
    + destruct Hhere as (-> & Hidx & e & Hreq & Hnull).
      destruct (filter_result _ names) as [dirs|]; [|done].
      cbn [map_result]. unfold try_load at 1, loadDynamicExtension.
      rewrite Hidx, Hreq. destruct e; [done| |]; by eexists.
    + specialize (IH Hrest).
      destruct (filter_result _ names) as [dirs|]; [|done].
      destruct IH as [e He]. destruct b; [|by exists e].
      cbn [map_result]. destruct (try_load fs require extensionsPath n); [|by eexists].
      rewrite He. by eexists.
Qed.

Lemma loaded_registration_spec (n : string) (reg : IRegisteredExtension IExtensionInit) :
  loaded_registration fs require extensionsPath n = Some reg <->
  exists default,
    isDirectory fs (join extensionsPath n) = Ok true /\
    existsSync fs (join (join extensionsPath n) "index.js") = true /\
    require (join (join extensionsPath n) "index.js") = Returned default /\
    reg = {| name := n; initFunc := default |}.
Proof.
  unfold loaded_registration. split.
  - destruct (isDirectory fs _) as [[|]|]; try discriminate.
    destruct (existsSync fs _); [|discriminate].
    destruct (require _) as [default|]; [|discriminate].
    intros [= <-]. by exists default.
  - intros (default & -> & -> & -> & ->). reflexivity.
Qed.

Lemma loadDynamicExtensions_no_undefined (fs' : FS)
    (out : list (option (IRegisteredExtension IExtensionInit))) :
  loadDynamicExtensions fs require extensionsPath = Ok (fs', out) -> None ∉ out.
Proof.
  unfold loadDynamicExtensions.
  destruct (existsSync fs extensionsPath); cbn [negb].
  - destruct (readdirSync fs extensionsPath) as [names|]; [|discriminate].
    destruct (filter_result _ names) as [dirs|]; [|discriminate].
    destruct (map_result _ dirs) as [res|]; [|discriminate].
    intros [= _ <-] Hin. apply list_elem_of_filter in Hin as [Hne _]. by apply Hne.
  - destruct (mkdirSync extensionsPath fs); [|discriminate].
    intros [= _ <-]. apply not_elem_of_nil.
Qed.

(** C4, amended.  When the extensions directory exists, can be listed,
    every listed entry can be stat'ed and no module throws [null] or
    [undefined], [loadDynamicExtensions] leaves the file system as it is
    and returns, in the order of the directory listing, exactly one
    registration (the entry's name and the default export of its module,
    which may be undefined) per listed entry that is a directory,
    contains [index.js] and whose module loads without throwing; entries
    without [index.js] or whose load throws contribute nothing.  When
    the directory does not exist and [mkdirSync] succeeds, it is created
    and the result is the empty list.  No element of a result is
    undefined.  In the other cases the load throws: the error of
    [mkdirSync] or of the listing, and an error when a [stat] throws or
    a module throws [null] or [undefined]. *)
Theorem loadDynamicExtensions_registrations :
  (forall names,
     existsSync fs extensionsPath = true ->
     readdirSync fs extensionsPath = Ok names ->
     statable fs extensionsPath names = true ->
     throws_no_nullish fs require extensionsPath names = true ->
     loadDynamicExtensions fs require extensionsPath =
       Ok (fs, Some <$> omap (loaded_registration fs require extensionsPath) names) /\
     (forall reg,
        reg ∈ omap (loaded_registration fs require extensionsPath) names <->
        exists n default,
          n ∈ names /\
          isDirectory fs (join extensionsPath n) = Ok true /\
          existsSync fs (join (join extensionsPath n) "index.js") = true /\
          require (join (join extensionsPath n) "index.js") = Returned default /\
          reg = {| name := n; initFunc := default |})) /\
  (forall created,
     existsSync fs extensionsPath = false ->
     mkdirSync extensionsPath fs = Ok created ->
     loadDynamicExtensions fs require extensionsPath = Ok (created, []) /\
     existsSync created extensionsPath = true /\
     isDirectory created extensionsPath = Ok true /\
     readdirSync created extensionsPath = Ok []) /\
  (forall fs' out,
     loadDynamicExtensions fs require extensionsPath = Ok (fs', out) -> None ∉ out) /\
  (forall e,
     existsSync fs extensionsPath = false ->
     mkdirSync extensionsPath fs = Thrown e ->
     loadDynamicExtensions fs require extensionsPath = Thrown e) /\
  (forall e,
     existsSync fs extensionsPath = true ->
     readdirSync fs extensionsPath = Thrown e ->
     loadDynamicExtensions fs require extensionsPath = Thrown e) /\
  (forall names,
     existsSync fs extensionsPath = true ->
     readdirSync fs extensionsPath = Ok names ->
     statable fs extensionsPath names = false \/
     throws_no_nullish fs require extensionsPath names = false ->
     exists e, loadDynamicExtensions fs require extensionsPath = Thrown e).
Proof.
  split; [|split; [|split; [|split; [|split]]]].
  - intros names Hex Hnames Hstat Hquiet. split.
    + unfold loadDynamicExtensions. rewrite Hex, Hnames. cbn [negb].
      destruct (load_all_spec names Hstat Hquiet) as (dirs & res & -> & -> & ->). done.
    + intros reg. rewrite list_elem_of_omap. split.
      * intros (n & Hn & Hreg). apply loaded_registration_spec in Hreg as (default & ?).
        exists n, default. tauto.
      * intros (n & default & Hn & Hrest). exists n. split; [done|].
        apply loaded_registration_spec. by exists default.
  - intros created Hex Hmk. split.
    + unfold loadDynamicExtensions. by rewrite Hex, Hmk.
    + destruct (mkdirSync_created _ _ _ Hmk) as (? & ? & ? & _). done.
  - apply loadDynamicExtensions_no_undefined.
  - intros e Hex Hmk. unfold loadDynamicExtensions. by rewrite Hex, Hmk.
  - intros e Hex Hnames. unfold loadDynamicExtensions. by rewrite Hex, Hnames.
  - intros names Hex Hnames Hbad. unfold loadDynamicExtensions.
    rewrite Hex, Hnames. cbn [negb].
    pose proof (load_all_fails names Hbad) as Hfail.
    destruct (filter_result _ names) as [dirs|e]; [|by exists e].
    destruct Hfail as [e ->]. by exists e.
Qed.

End LoaderFacts.

(** C4, as stated, fails in four ways.  A listed entry that cannot be
    stat'ed, here a link whose target is gone, ends the load with the
    error of [statSync], although the directory [good] beside it holds a
    module that loads.  When the parent of the extensions directory is
    missing, [mkdirSync] throws: nothing is created and nothing
    returned.  A module that throws [null] is not skipped: the handler
    that should skip it throws in turn.  And a module without default
    export is registered with its name and no init function. *)
Lemma loadDynamicExtensions_aborts :
  (loadDynamicExtensions stale_link_fs sample_require plugins =
     Thrown "ENOENT: no such file or directory, stat" /\
   loaded_registration stale_link_fs sample_require plugins "good" =
     Some {| name := "good"; initFunc := Some 7 |}) /\
  (existsSync no_userData_fs plugins = false /\
   loadDynamicExtensions no_userData_fs sample_require plugins =
     Thrown "ENOENT: no such file or directory, mkdir") /\
  (loadDynamicExtensions sample_fs null_require plugins =
     Thrown "Cannot read property 'message' of null") /\
  (loadDynamicExtensions sample_fs no_default_require plugins =
     Ok (sample_fs, [ Some {| name := "good"; initFunc := None |} ])).
Proof. by vm_compute. Qed.

Lemma loadDynamicExtensions_registrations_witness :
  existsSync sample_fs plugins = true /\
  readdirSync sample_fs plugins = Ok ["good"; "empty"; "broken"; "notes.txt"] /\
  statable sample_fs plugins ["good"; "empty"; "broken"; "notes.txt"] = true /\
  throws_no_nullish sample_fs sample_require plugins
    ["good"; "empty"; "broken"; "notes.txt"] = true /\
  loadDynamicExtensions sample_fs sample_require plugins =
    Ok (sample_fs, [ Some {| name := "good"; initFunc := Some 7 |} ]).
Proof.
  repeat (split; [reflexivity|]).
  destruct (loadDynamicExtensions_registrations sample_fs sample_require plugins)
    as [Hload _].
  destruct (Hload ["good"; "empty"; "broken"; "notes.txt"]
              eq_refl eq_refl eq_refl eq_refl) as [-> _].
  reflexivity.
Defined.

(** *** The registry of state change callbacks *)

Lemma registered_for_snoc (key : string) (ops : list Op) (op : Op) :
  registered_for key (ops ++ [op]) =
  registered_for key ops ++
  match op with
  | Register watchPath callback =>
      if bool_decide (JS.join "." watchPath = key) then [callback] else []
  | Fire _ _ _ => []
  end.
Proof.
  unfold registered_for. rewrite omap_app. f_equal. simpl.
  destruct op; [|done]. by case_bool_decide.
Qed.

Lemma run_ops_snoc (ops : list Op) (op : Op) :
  run_ops (ops ++ [op]) = apply_op (run_ops ops) op.
Proof. unfold run_ops. by rewrite fold_left_app. Qed.

Lemma listener_mWatches (i : nat) (prevValue currentValue : JsValue) (m : Manager) :
  mWatches (listener i prevValue currentValue m).1 = mWatches m.
Proof.
  unfold listener. destruct (watchers m !! i); [|done].
  by destruct (strict_equal _ _).
Qed.

Lemma listener_keys (i : nat) (prevValue currentValue : JsValue) (m : Manager) :
  w_key <$> watchers (listener i prevValue currentValue m).1 = w_key <$> watchers m.
Proof.
  unfold listener. destruct (watchers m !! i) as [w|] eqn:Hw; [|done].
  destruct (strict_equal _ _); [done|]. simpl.
  rewrite list_fmap_insert. simpl. apply list_insert_id.
  by rewrite list_lookup_fmap, Hw.
Qed.

(** What a registration does to the registry, by the own property found
    under its key. *)
Lemma register_lookup (m : Manager) (watchPath : list string)
    (callback : IStateChangeCallback) (k : string) :
  mWatches (apply_op m (Register watchPath callback)) !! k =
  if bool_decide (k = JS.join "." watchPath) then
    match mWatches m !! k with
    | Some cbs => Some (cbs ++ [callback])
    | None => if bool_decide (k ∈ JS.prototype_members) then None else Some [callback]
    end
  else mWatches m !! k.
Proof.
  cbn [apply_op]. unfold onStateChange, JS.get_property.
  destruct (decide (k = JS.join "." watchPath)) as [->|Hk].
  - rewrite (bool_decide_true (_ = _)) by done.
    destruct (mWatches m !! JS.join "." watchPath) as [cbs|] eqn:Hl; cbn [mWatches].
    + by rewrite lookup_insert_eq.
    + case_bool_decide; cbn [mWatches]; [done|]. by rewrite lookup_insert_eq.
  - rewrite (bool_decide_false (_ = _)) by done.
    destruct (mWatches m !! JS.join "." watchPath) as [cbs|] eqn:Hl; cbn [mWatches].
    + by rewrite lookup_insert_ne.
    + case_bool_decide; cbn [mWatches]; [done|]. by rewrite lookup_insert_ne.
Qed.

Lemma register_watchers (m : Manager) (watchPath : list string)
    (callback : IStateChangeCallback) :
  watchers (apply_op m (Register watchPath callback)) =
  match mWatches m !! JS.join "." watchPath with
  | Some _ => watchers m
  | None =>
      if bool_decide (JS.join "." watchPath ∈ JS.prototype_members) then watchers m
      else watchers m ++ [{| w_path := watchPath; w_key := JS.join "." watchPath;
                             w_lastValue := JUndefined |}]
  end.
Proof.
  cbn [apply_op]. unfold onStateChange, JS.get_property.
  destruct (mWatches m !! _); [done|]. by case_bool_decide.
Qed.

(** The registry of a manager, from its history: under each key that
    names no member of [Object.prototype], the callbacks registered for
    it, in order; no entry for other keys. *)
Lemma mWatches_history (ops : list Op) (key : string) :
  mWatches (run_ops ops) !! key =
  if bool_decide (key ∈ JS.prototype_members) then None
  else match registered_for key ops with
       | [] => None
       | cbs => Some cbs
       end.
Proof.
  induction ops as [|op ops IH] using rev_ind; [by case_bool_decide|].
  rewrite run_ops_snoc, registered_for_snoc.
  destruct op as [watchPath callback|i prevValue currentValue].
  - rewrite register_lookup, IH.
    destruct (decide (key = JS.join "." watchPath)) as [Hk|Hk].
    + rewrite (bool_decide_true (key = _)) by done.
      rewrite (bool_decide_true (_ = key)) by done.
      destruct (bool_decide (key ∈ JS.prototype_members)); [done|].
      by destruct (registered_for key ops).
    + rewrite (bool_decide_false (key = _)) by done.
      rewrite (bool_decide_false (_ = key)) by done.
      by rewrite app_nil_r.
  - cbn [apply_op]. rewrite listener_mWatches, IH, app_nil_r. done.
Qed.

(** One watcher per key of the registry, none for other keys. *)
Lemma watchers_history (ops : list Op) (key : string) :
  length (filter (fun k => k = key) (w_key <$> watchers (run_ops ops))) =
  match mWatches (run_ops ops) !! key with
  | Some _ => 1
  | None => 0
  end.
Proof.
  induction ops as [|op ops IH] using rev_ind; [done|].
  rewrite run_ops_snoc.
  destruct op as [watchPath callback|i prevValue currentValue].
  - rewrite register_lookup, register_watchers.
    destruct (decide (key = JS.join "." watchPath)) as [->|Hk].
    + rewrite (bool_decide_true (_ = _)) by done.
      destruct (mWatches (run_ops ops) !! JS.join "." watchPath) eqn:Hl; [exact IH|].
      case_bool_decide; [exact IH|].
      rewrite fmap_app, filter_app, length_app, IH. simpl.
      rewrite filter_cons, decide_True by done. done.
    + rewrite (bool_decide_false (key = _)) by done.
      destruct (mWatches (run_ops ops) !! JS.join "." watchPath) eqn:Hl; [exact IH|].
      case_bool_decide; [exact IH|].
      rewrite fmap_app, filter_app, length_app, IH. simpl.
      rewrite filter_cons, decide_False by done. simpl. lia.
  - cbn [apply_op]. by rewrite listener_mWatches, listener_keys.
Qed.

Lemma call_all_spec (cbs : list IStateChangeCallback) (prevValue currentValue : JsValue) :
  Forall (fun cb => throws_nullish prevValue currentValue cb = false) cbs ->
  call_all cbs prevValue currentValue =
  {| n_calls := map (invocation prevValue currentValue) cbs;
     n_logged := omap (logged_message prevValue currentValue) cbs;
     n_thrown := None |}.
Proof.
  induction 1 as [|cb cbs Hcb _ IH]; [done|].
  cbn [call_all]. rewrite IH. unfold throws_nullish in Hcb.
  assert (omap (logged_message prevValue currentValue) (cb :: cbs) =
          match logged_message prevValue currentValue cb with
          | Some x => x :: omap (logged_message prevValue currentValue) cbs
          | None => omap (logged_message prevValue currentValue) cbs
          end) as -> by reflexivity.
  cbn [map n_calls n_logged n_thrown].
  unfold logged_message, invocation in *.
  destruct (cb_throws cb prevValue currentValue) as [[message| |]|]; done.
Qed.

(** The loop stops behind the first callback that throws [null] or
    [undefined]. *)
Lemma call_all_stops (before after : list IStateChangeCallback) (cb : IStateChangeCallback)
    (prevValue currentValue : JsValue) :
  Forall (fun cb => throws_nullish prevValue currentValue cb = false) before ->
  throws_nullish prevValue currentValue cb = true ->
  n_calls (call_all (before ++ cb :: after) prevValue currentValue) =
    map (invocation prevValue currentValue) (before ++ [cb]) /\
  is_Some (n_thrown (call_all (before ++ cb :: after) prevValue currentValue)).
Proof.
  intros Hbefore Hcb. induction Hbefore as [|x before Hx _ IH].
  - cbn [app call_all]. unfold throws_nullish in Hcb.
    destruct (cb_throws cb prevValue currentValue) as [[message| |]|]; try done;
      cbn; by split.
  - cbn [app call_all]. destruct IH as [IH1 IH2]. unfold throws_nullish in Hx.
    destruct (cb_throws x prevValue currentValue) as [[message| |]|]; try done;
      cbn; rewrite IH1; by split.
Qed.

(** C8, as stated, fails in three ways.  The listener compares the new
    value with the last value it passed on, [undefined] at first: a
    first change of the watched value from [skyrimse] to [undefined]
    reaches none of the three callbacks registered.  A callback that
    throws [null] ends the loop: the third callback is not called.  And
    a registration for the path [constructor] throws and leaves the
    registry without a list for it. *)
Lemma state_change_not_passed_on :
  (registered_for "settings.gameMode" sample_ops =
     [quiet "first"; failing "second"; quiet "third"] /\
   listener 0 (JStr "skyrimse") JUndefined (run_ops sample_ops) =
     (run_ops sample_ops, nothing_notified)) /\
  (registered_for "settings.gameMode" null_ops =
     [quiet "first"; failing_null "second"; quiet "third"] /\
   (listener 0 JUndefined (JStr "skyrimse") (run_ops null_ops)).2 =
     {| n_calls := [ invocation JUndefined (JStr "skyrimse") (quiet "first");
                     invocation JUndefined (JStr "skyrimse") (failing_null "second") ];
        n_logged := [];
        n_thrown := Some "Cannot read property 'message' of null" |}) /\
  (onStateChange ["constructor"] (quiet "first") new_manager =
     Thrown "this.mWatches[key].push is not a function" /\
   mWatches (run_ops [Register ["constructor"] (quiet "first")]) !! "constructor" = None).
Proof. by vm_compute. Qed.

(** C8, amended.  In a manager reached by any sequence of registrations
    and listener calls, consider a watcher and a current value that is
    not strictly equal to the value the watcher passed on last
    ([undefined] before its first call).  The key of the watcher names
    no member of [Object.prototype]; the registry holds one list for it,
    made of all callbacks registered for paths with that joined key, in
    order, and the key has this one watcher.  If none of these callbacks
    throws [null] or [undefined], the listener calls every one of them
    with the previous and the current value, whether or not callbacks
    throw; the throws are logged and the listener ends without error. *)
Theorem state_change_callbacks (ops : list Op) (i : nat) (w : Watcher)
    (prevValue currentValue : JsValue) :
  watchers (run_ops ops) !! i = Some w ->
  strict_equal currentValue (w_lastValue w) = false ->
  Forall (fun cb => throws_nullish prevValue currentValue cb = false)
         (registered_for (w_key w) ops) ->
  let key := w_key w in
  let out := listener i prevValue currentValue (run_ops ops) in
  (key ∉ JS.prototype_members) /\
  mWatches (run_ops ops) !! key = Some (registered_for key ops) /\
  length (filter (fun k => k = key) (w_key <$> watchers (run_ops ops))) = 1 /\
  n_calls out.2 = map (invocation prevValue currentValue) (registered_for key ops) /\
  n_logged out.2 = omap (logged_message prevValue currentValue) (registered_for key ops) /\
  n_thrown out.2 = None /\
  mWatches out.1 = mWatches (run_ops ops) /\
  (forall w', watchers out.1 !! i = Some w' -> w_lastValue w' = currentValue).
Proof.
  intros Hw Hne Hquiet key out.
  assert (is_Some (mWatches (run_ops ops) !! key)) as [cbs Hcbs].
  { pose proof (watchers_history ops key) as Hcount.
    destruct (mWatches (run_ops ops) !! key); [by eexists|].
    exfalso.
    assert (key ∈ filter (fun k => k = key) (w_key <$> watchers (run_ops ops))) as Hin.
    { apply list_elem_of_filter. split; [done|].
      apply list_elem_of_fmap. exists w. split; [done|].
      by eapply list_elem_of_lookup_2. }
    destruct (filter _ _); [by apply not_elem_of_nil in Hin | discriminate]. }
  assert ((key ∉ JS.prototype_members) /\ cbs = registered_for key ops) as [Hkey ->].
  { rewrite mWatches_history in Hcbs. case_bool_decide; [discriminate|].
    split; [done|]. destruct (registered_for key ops); congruence. }
  assert (out = ({| mWatches := mWatches (run_ops ops);
                    watchers := <[i := {| w_path := w_path w; w_key := w_key w;
                                          w_lastValue := currentValue |}]>
                                  (watchers (run_ops ops)) |},
                 call_all (registered_for key ops) prevValue currentValue)) as ->.
  { unfold out, listener. rewrite Hw, Hne. fold key. by rewrite Hcbs. }
  rewrite call_all_spec by done. cbn [fst snd n_calls n_logged n_thrown mWatches watchers].
  split; [done|]. split; [done|]. split; [by rewrite watchers_history, Hcbs|].
  repeat split.
  intros w'. rewrite list_lookup_insert_eq by (by eapply lookup_lt_Some).
  by intros [= <-].
Qed.

Lemma state_change_callbacks_witness :
  let w := {| w_path := ["settings"; "gameMode"]; w_key := "settings.gameMode";
              w_lastValue := JUndefined |} in
  watchers (run_ops sample_ops) !! 0 = Some w /\
  strict_equal (JStr "skyrimse") (w_lastValue w) = false /\
  (listener 0 JUndefined (JStr "skyrimse") (run_ops sample_ops)).2 =
  {| n_calls := [ invocation JUndefined (JStr "skyrimse") (quiet "first");
                  invocation JUndefined (JStr "skyrimse") (failing "second");
                  invocation JUndefined (JStr "skyrimse") (quiet "third") ];
     n_logged := [ Some "handler failed" ];
     n_thrown := None |}.
Proof.
  intros w.
  assert (watchers (run_ops sample_ops) !! 0 = Some w) as Hw by reflexivity.
  assert (strict_equal (JStr "skyrimse") (w_lastValue w) = false) as Hne by reflexivity.
  split; [exact Hw|]. split; [exact Hne|].
  destruct (state_change_callbacks sample_ops 0 w JUndefined (JStr "skyrimse") Hw Hne)
    as (_ & _ & _ & Hcalls & Hlog & Hthrown & _).
  { by repeat constructor. }
  destruct (listener 0 JUndefined (JStr "skyrimse") (run_ops sample_ops)) as [m [c l t]].
  cbn [snd n_calls n_logged n_thrown] in Hcalls, Hlog, Hthrown.
  rewrite Hcalls, Hlog, Hthrown. reflexivity.
Defined.

(** *** Loading, over all directories *)

Section LoaderMore.

Context {IExtensionInit : Type}.
Variable builtin : string -> IExtensionInit.
Variable fs : FS.
Variable require : @Require IExtensionInit.

Lemma loadDynamicExtensions_missing (fs0 : FS) (extensionsPath : Path) :
  existsSync fs0 extensionsPath = false ->
  loadDynamicExtensions fs0 require extensionsPath =
  match mkdirSync extensionsPath fs0 with
  | Thrown e => Thrown e
  | Ok created => Ok (created, [])
  end.
Proof. intros Hex. unfold loadDynamicExtensions. by rewrite Hex. Qed.

(** X18.  A second [loadDynamicExtensions] on a directory that the
    first call had to create returns the empty list again and leaves the
    file system as the first call left it. *)
Theorem loadDynamicExtensions_after_create (extensionsPath : Path) (created : FS)
    (out : list (option (IRegisteredExtension IExtensionInit))) :
  existsSync fs extensionsPath = false ->
  loadDynamicExtensions fs require extensionsPath = Ok (created, out) ->
  out = [] /\
  loadDynamicExtensions created require extensionsPath = Ok (created, []).
Proof.
  intros Hex. unfold loadDynamicExtensions at 1. rewrite Hex. cbn [negb].
  destruct (mkdirSync extensionsPath fs) as [fs'|] eqn:Hmk; [|discriminate].
  intros [= -> <-]. split; [done|].
  destruct (mkdirSync_created _ _ _ Hmk) as (Hex' & _ & Hls & _).
  unfold loadDynamicExtensions. by rewrite Hex', Hls.
Qed.

Lemma omap_Some {A} (l : list A) : omap (fun r => r) (Some <$> l) = l.
Proof. induction l as [|x l IH]; [done|]. rewrite fmap_cons. cbn. by f_equal. Qed.

Lemma try_load_name (extensionsPath : Path) (n : string)
    (reg : IRegisteredExtension IExtensionInit) :
  try_load fs require extensionsPath n = Ok (Some reg) -> name reg = n.
Proof.
  unfold try_load, loadDynamicExtension. rewrite basename_join.
  destruct (existsSync fs _); [|discriminate].
  destruct (require _) as [default|e]; [by intros [= <-]|].
  by destruct (message_of e).
Qed.

Lemma filter_result_sublist {A} (f : A -> result bool) (l kept : list A) :
  filter_result f l = Ok kept -> kept `sublist_of` l.
Proof.
  revert kept. induction l as [|x l IH]; intros kept; cbn [filter_result].
  - by intros [= <-].
  - destruct (f x) as [keep|]; [|discriminate].
    destruct (filter_result f l) as [kept'|]; [|discriminate].
    intros [= <-]. destruct keep; [apply sublist_skip | apply sublist_cons]; by apply IH.
Qed.

Lemma loaded_names_sublist (extensionsPath : Path) (dirs : list string)
    (res : list (option (IRegisteredExtension IExtensionInit))) :
  map_result (try_load fs require extensionsPath) dirs = Ok res ->
  name <$> omap (fun r => r) (filter (fun reg => reg <> None) res) `sublist_of` dirs /\
  length (omap (fun r => r) (filter (fun reg => reg <> None) res)) =
    length (filter (fun reg => reg <> None) res).
Proof.
  revert res. induction dirs as [|n dirs IH]; intros res; cbn [map_result].
  - by intros [= <-].
  - destruct (try_load fs require extensionsPath n) as [reg|] eqn:Hload; [|discriminate].
    destruct (map_result _ dirs) as [res'|]; [|discriminate].
    intros [= <-]. destruct (IH res' eq_refl) as [IH1 IH2].
    rewrite filter_cons. destruct reg as [reg|].
    + rewrite decide_True by done.
      change (omap (fun r => r) (Some reg :: filter (fun reg => reg <> None) res'))
        with (reg :: omap (fun r => r) (filter (fun reg => reg <> None) res')).
      rewrite fmap_cons, (try_load_name _ _ _ Hload).
      split; [by apply sublist_skip | by cbn [length]; rewrite IH2].
    + rewrite decide_False by (intros H; by apply H).
      split; [by apply sublist_cons | done].
Qed.

(** X19.  The result of [loadDynamicExtensions] names no extension
    twice when the directory listing names no entry twice, and every
    name in it is an entry of the directory. *)
Theorem loadDynamicExtensions_names (extensionsPath : Path) (names : list string)
    (fs' : FS) (out : list (option (IRegisteredExtension IExtensionInit))) :
  readdirSync fs extensionsPath = Ok names ->
  NoDup names ->
  loadDynamicExtensions fs require extensionsPath = Ok (fs', out) ->
  let regs := omap (fun r => r) out in
  NoDup (name <$> regs) /\
  (forall n, n ∈ name <$> regs -> n ∈ names) /\
  length regs = length out.
Proof.
  intros Hnames Hnd Hload regs.
  assert (name <$> regs `sublist_of` names /\ length regs = length out) as [Hsub Hlen].
  { unfold regs. revert Hload. unfold loadDynamicExtensions.
    destruct (existsSync fs extensionsPath); cbn [negb].
    - rewrite Hnames.
      destruct (filter_result _ names) as [dirs|] eqn:Hdirs; [|discriminate].
      destruct (map_result _ dirs) as [res|] eqn:Hres; [|discriminate].
      intros [= _ <-]. destruct (loaded_names_sublist _ _ _ Hres) as [H1 H2].
      split; [|done]. etrans; [exact H1|]. by eapply filter_result_sublist.
    - destruct (mkdirSync extensionsPath fs); [|discriminate].
      intros [= _ <-]. split; [apply sublist_nil_l | done]. }
  split; [by eapply sublist_NoDup|]. split; [|done].
  intros n Hn. by eapply elem_of_sublist.
Qed.

(** X20.  Whenever [loadExtensions] returns, the fourteen built-in
    extensions come first, in their fixed order.  On a fresh
    installation, where neither plugin directory exists, it creates the
    bundled directory and then the user's, and returns the built-in
    extensions only, provided both [mkdirSync] calls succeed; when the
    first or the second throws, [loadExtensions] throws that error. *)
Theorem loadExtensions_builtin_first (bundledPath extensionsPath : Path) :
  let static :=
    map (fun n => Some {| name := n; initFunc := Some (builtin n) |}) builtin_names in
  (forall fs' out,
     loadExtensions builtin fs require bundledPath extensionsPath = Ok (fs', out) ->
     take 14 out = static) /\
  (existsSync fs bundledPath = false ->
   existsSync fs extensionsPath = false ->
   bundledPath <> extensionsPath ->
   match mkdirSync bundledPath fs with
   | Thrown e =>
       loadExtensions builtin fs require bundledPath extensionsPath = Thrown e
   | Ok fs1 =>
       match mkdirSync extensionsPath fs1 with
       | Thrown e =>
           loadExtensions builtin fs require bundledPath extensionsPath = Thrown e
       | Ok fs2 =>
           loadExtensions builtin fs require bundledPath extensionsPath =
             Ok (fs2, static) /\
           existsSync fs2 bundledPath = true /\ existsSync fs2 extensionsPath = true
       end
   end).
Proof.
  intros static. split.
  - intros fs' out. unfold loadExtensions.
    destruct (loadDynamicExtensions fs require bundledPath) as [[fs1 bundled]|];
      [|discriminate].
    destruct (loadDynamicExtensions fs1 require extensionsPath) as [[fs2 installed]|];
      [|discriminate].
    intros [= _ <-]. reflexivity.
  - intros Hb He Hne. unfold loadExtensions.
    rewrite (loadDynamicExtensions_missing fs) by done.
    destruct (mkdirSync bundledPath fs) as [fs1|e] eqn:Hmk1; [|done].
    destruct (mkdirSync_created _ _ _ Hmk1) as (Hb1 & _ & _ & Hother).
    assert (existsSync fs1 extensionsPath = false) as He1.
    { rewrite Hother by done. exact He. }
    rewrite (loadDynamicExtensions_missing fs1) by done.
    destruct (mkdirSync extensionsPath fs1) as [fs2|e] eqn:Hmk2; [|done].
    destruct (mkdirSync_created _ _ _ Hmk2) as (He2 & _ & _ & Hother2).
    split; [by rewrite !app_nil_r|]. split; [|done].
    rewrite Hother2 by done. exact Hb1.
Qed.

End LoaderMore.

Lemma loadDynamicExtensions_after_create_witness :
  let missing := ["userData"; "bundledPlugins"] in
  existsSync sample_fs missing = false /\
  exists created,
    loadDynamicExtensions sample_fs sample_require missing = Ok (created, []) /\
    loadDynamicExtensions created sample_require missing = Ok (created, []).
Proof.
  intros missing. split; [reflexivity|].
  destruct (loadDynamicExtensions sample_fs sample_require missing)
    as [[created out]|] eqn:Hload; [|discriminate Hload].
  destruct (loadDynamicExtensions_after_create sample_fs sample_require missing
              created out eq_refl Hload) as [-> Hagain].
  by exists created.
Defined.

Lemma loadDynamicExtensions_names_witness :
  readdirSync sample_fs plugins = Ok ["good"; "empty"; "broken"; "notes.txt"] /\
  NoDup ["good"; "empty"; "broken"; "notes.txt"] /\
  exists out,
    loadDynamicExtensions sample_fs sample_require plugins = Ok (sample_fs, out) /\
    NoDup (name <$> omap (fun r => r) out) /\
    length (omap (fun r => r) out) = length out.
Proof.
  assert (NoDup ["good"; "empty"; "broken"; "notes.txt"]) as Hnd.
  { apply (bool_decide_unpack _). by vm_compute. }
  split; [reflexivity|]. split; [exact Hnd|].
  exists [ Some {| name := "good"; initFunc := Some 7 |} ].
  assert (loadDynamicExtensions sample_fs sample_require plugins =
          Ok (sample_fs, [ Some {| name := "good"; initFunc := Some 7 |} ])) as Hload
    by reflexivity.
  split; [exact Hload|].
  destruct (loadDynamicExtensions_names sample_fs sample_require plugins _ _ _
              eq_refl Hnd Hload) as (Hnames & _ & Hlen).
  by split.
Defined.

Lemma loadExtensions_builtin_first_witness :
  let fresh := {| existsSync := fun p => bool_decide (p ∈ [ ["app"]; ["userData"] ]);
                  readdirSync := fun p =>
                    if bool_decide (p ∈ [ ["app"]; ["userData"] ]) then Ok []
                    else Thrown "ENOENT: no such file or directory, scandir";
                  isDirectory := fun p =>
                    if bool_decide (p ∈ [ ["app"]; ["userData"] ]) then Ok true
                    else Thrown "ENOENT: no such file or directory, stat";
                  mkdir_denied := fun _ => None |} in
  existsSync fresh ["app"; "bundledPlugins"] = false /\
  existsSync fresh plugins = false /\
  exists fs2 out,
    loadExtensions (fun n => String.length n) fresh sample_require
      ["app"; "bundledPlugins"] plugins = Ok (fs2, out) /\
    length out = 14 /\ existsSync fs2 plugins = true.
Proof.
  intros fresh. split; [reflexivity|]. split; [reflexivity|].
  destruct (loadExtensions_builtin_first (fun n => String.length n) fresh sample_require
              ["app"; "bundledPlugins"] plugins) as [_ H].
  specialize (H eq_refl eq_refl ltac:(discriminate)).
  destruct (mkdirSync ["app"; "bundledPlugins"] fresh) as [fs1|] eqn:Hmk1;
    [|discriminate Hmk1].
  destruct (mkdirSync plugins fs1) as [fs2|] eqn:Hmk2.
  - destruct H as (Hout & _ & Hex). eexists fs2, _. split; [exact Hout|]. by split.
  - exfalso. revert Hmk2. injection Hmk1 as <-. by vm_compute.
Defined.

(** *** Running the init functions *)







(** *** The listener's guard *)

(** X25.  The listener passes a value on once: called again with the
    current value it was last called with, other than [NaN], it calls no
    callback, logs nothing and leaves the manager as it is, whatever the
    previous value given and whether or not the first call ended with an
    error.  [NaN] equals nothing: every call with it goes through to the
    callbacks. *)
Theorem listener_passes_value_once (i : nat) (w : Watcher)
    (prevValue prevValue' currentValue : JsValue) (m : Manager) :
  watchers m !! i = Some w ->
  let m' := (listener i prevValue currentValue m).1 in
  (currentValue <> JNaN ->
   listener i prevValue' currentValue m' = (m', nothing_notified)) /\
  (currentValue = JNaN ->
   (listener i prevValue' currentValue m').2 =
   call_all (default [] (mWatches m !! w_key w)) prevValue' currentValue).
Proof.
  intros Hw m'. split.
  - intros Hnan.
    assert (strict_equal currentValue currentValue = true) as Hrefl.
    { unfold strict_equal. destruct currentValue; try done; by rewrite bool_decide_true. }
    unfold m', listener. rewrite Hw.
    destruct (strict_equal currentValue (w_lastValue w)) eqn:Hcur; cbn [fst].
    + by rewrite Hw, Hcur.
    + cbn [watchers]. rewrite list_lookup_insert_eq by (by eapply lookup_lt_Some).
      cbn [w_lastValue]. by rewrite Hrefl.
  - intros ->. unfold m', listener. rewrite Hw. cbn [strict_equal fst].
    cbn [watchers]. rewrite list_lookup_insert_eq by (by eapply lookup_lt_Some).
    reflexivity.
Qed.

Lemma listener_passes_value_once_witness :
  let m := (listener 0 JUndefined (JStr "skyrimse") (run_ops sample_ops)).1 in
  watchers (run_ops sample_ops) !! 0 =
    Some {| w_path := ["settings"; "gameMode"]; w_key := "settings.gameMode";
            w_lastValue := JUndefined |} /\
  JStr "skyrimse" <> JNaN /\
  (listener 0 (JStr "skyrim") (JStr "skyrimse") m).2 = nothing_notified.
Proof.
  intros m.
  assert (JStr "skyrimse" <> JNaN) as Hnan by discriminate.
  split; [reflexivity|]. split; [exact Hnan|].
  destruct (listener_passes_value_once 0 _ JUndefined (JStr "skyrim") (JStr "skyrimse")
              (run_ops sample_ops) eq_refl) as [Hskip _].
  unfold m. by rewrite (Hskip Hnan).
Defined.

End ExtensionManagerFacts.

(** ** Skyrim SE descriptor *)
Module SkyrimSEFacts.
Import SkyrimSE.

(** C10.  The descriptor is constant data: its id is [skyrimse],
    [mergeMods] is true, [queryModPath] returns [./data] whatever it is
    called with, a path that is absolute neither on POSIX nor on Windows,
    [executable] returns [SkyrimSE.exe], and [supportedTools] lists the
    four tools SSEEdit, WryeBash, LOOT and FNIS, in this order. *)
Theorem skyrimse_descriptor :
  id (tool game) = "skyrimse" /\
  mergeMods game = true /\
  (forall u, queryModPath game u = "./data") /\
  (forall u, isAbsolute_posix (queryModPath game u) = false /\
             isAbsolute_win32 (queryModPath game u) = false) /\
  (forall u, executable (tool game) u = "SkyrimSE.exe") /\
  length (supportedTools game) = 4 /\
  name <$> supportedTools game = ["SSEEdit"; "WryeBash"; "LOOT"; "FNIS"] /\
  id <$> supportedTools game = ["SSEEdit"; "WryeBash"; "loot"; "FNIS"].
Proof. repeat split. Qed.

End SkyrimSEFacts.
